(** * wasm-matrix: the WASI I/O binding layer of [assembly/wasa.ts] and
      the rain of [assembly/index.ts]

    A shallow embedding of the classes [IO] and [Console] of
    [src/assembly/wasa.ts] (AssemblyScript, compiled to wasm32), and the
    properties of their allocation discipline, of the scatter write and of
    the chunked read loop; then of the droplets of [src/assembly/index.ts]
    that are drawn through [Console.write].

    The program runs against three services that are not part of the
    repository and that are modelled here as an explicit [World]:
    - the wasm32 linear memory, byte addressed, little endian;
    - the arena allocator behind [memory.allocate] / [memory.free];
    - the WASI host behind [fd_write] / [fd_read], which owns the byte
      streams of the descriptors.
    Managed objects ([Array<u8>], [string]) live in a separate object store,
    so that a caller's array and the array a function returns can be told
    to be the same object. *)

From Stdlib Require Import ZArith Lia List.
From Stdlib Require DecimalString.
From coqutil Require Import Byte Word.LittleEndianList.
From stdpp Require Import gmap list strings.

Local Open Scope Z_scope.

(** ** Machine integers *)

(** [usize] is 32 bits wide on wasm32; [sizeof<usize>()] is 4. *)
Definition sizeof_usize : Z := 4.
Definition USIZE_MOD : Z := 2 ^ 32.

Definition wrap32 (z : Z) : Z := z mod USIZE_MOD.
Definition uadd (a b : Z) : Z := wrap32 (a + b).
Definition usub (a b : Z) : Z := wrap32 (a - b).
Definition umul (a b : Z) : Z := wrap32 (a * b).

(** [errno.SUCCESS] of the WASI bindings. *)
Definition SUCCESS : Z := 0.

(** ** Linear memory

    One byte per address; an address never written holds 0. Loads and
    stores are total: the bounds check of wasm is not modelled, the
    operations below only touch regions they allocated. *)

Definition load8 (m : gmap Z byte) (a : Z) : byte := default Byte.x00 (m !! a).
Definition store8 (m : gmap Z byte) (a : Z) (b : byte) : gmap Z byte := <[a := b]> m.

Fixpoint store_bytes (m : gmap Z byte) (a : Z) (bs : list byte) : gmap Z byte :=
  match bs with
  | [] => m
  | b :: bs' => store_bytes (store8 m a b) (a + 1) bs'
  end.

Fixpoint load_bytes (m : gmap Z byte) (a : Z) (n : nat) : list byte :=
  match n with
  | O => []
  | S k => load8 m a :: load_bytes m (a + 1) k
  end.

(** [store<u32>] and [load<u32>] / [load<usize>]: four bytes, little endian. *)
Definition store32 (m : gmap Z byte) (a v : Z) : gmap Z byte :=
  store_bytes m a (le_split 4 v).
Definition load32 (m : gmap Z byte) (a : Z) : Z :=
  le_combine (load_bytes m a 4).

(** ** Events seen by the allocator and by the host *)

Inductive Event : Type :=
| EvAlloc (ptr size : Z)
| EvFree (ptr : Z)
| EvFdWrite (fd : Z) (iovs : list (Z * Z)) (payload : list (list byte))
| EvFdRead (fd : Z) (iovs : list (Z * Z))
| EvFdClose (fd : Z).

(** What the host does with the next [fd_read]: hand over everything that
    fits, hand over at most [S k] bytes (a short read), or fail with a
    non-zero errno after possibly scribbling [junk] into the buffers and
    possibly storing a count. *)
Inductive ReadOutcome : Type :=
| RFull
| RShort (k : nat)
| RFail (e : positive) (junk : list byte) (cnt : option Z).

(** What the host does with the next [fd_write]: accept the whole request,
    accept at most [k] bytes, or fail with a non-zero errno. *)
Inductive WriteOutcome : Type :=
| WFull
| WShort (k : nat)
| WFail (e : positive).

Record World : Type := mkWorld {
  mem : gmap Z byte;              (* linear memory *)
  brk : Z;                        (* arena offset: the next address handed out *)
  journal : list Event;           (* allocator and host events, oldest first *)
  arrays : gmap Z (list byte);    (* managed Array<u8> objects, by reference *)
  input : gmap Z (list byte);     (* per descriptor: bytes not yet read *)
  output : gmap Z (list byte);    (* per descriptor: bytes delivered so far *)
  rplan : list ReadOutcome;       (* host behaviour of the coming fd_read calls *)
  wplan : list WriteOutcome       (* host behaviour of the coming fd_write calls *)
}.

Definition with_mem (m : gmap Z byte) (w : World) : World :=
  mkWorld m (brk w) (journal w) (arrays w) (input w) (output w) (rplan w) (wplan w).
Definition with_brk (b : Z) (w : World) : World :=
  mkWorld (mem w) b (journal w) (arrays w) (input w) (output w) (rplan w) (wplan w).
Definition journal_add (e : Event) (w : World) : World :=
  mkWorld (mem w) (brk w) (journal w ++ [e]) (arrays w) (input w) (output w) (rplan w) (wplan w).
Definition with_arrays (a : gmap Z (list byte)) (w : World) : World :=
  mkWorld (mem w) (brk w) (journal w) a (input w) (output w) (rplan w) (wplan w).
Definition with_input (i : gmap Z (list byte)) (w : World) : World :=
  mkWorld (mem w) (brk w) (journal w) (arrays w) i (output w) (rplan w) (wplan w).
Definition with_output (o : gmap Z (list byte)) (w : World) : World :=
  mkWorld (mem w) (brk w) (journal w) (arrays w) (input w) o (rplan w) (wplan w).
Definition with_rplan (p : list ReadOutcome) (w : World) : World :=
  mkWorld (mem w) (brk w) (journal w) (arrays w) (input w) (output w) p (wplan w).
Definition with_wplan (p : list WriteOutcome) (w : World) : World :=
  mkWorld (mem w) (brk w) (journal w) (arrays w) (input w) (output w) (rplan w) p.

(** The stream contents of a descriptor; a descriptor never used is empty. *)
Definition pending (w : World) (fd : Z) : list byte := default [] (input w !! fd).
Definition delivered (w : World) (fd : Z) : list byte := default [] (output w !! fd).

(** ** The monad of the embedding

    A computation takes the world and either returns a value and the new
    world, or does not return: a wasm trap ([unreachable] in the allocator,
    an out-of-range array access) or, for the read loop, exhausted fuel. *)

Definition M (A : Type) : Type := World -> option (A * World).

Definition ret {A : Type} (a : A) : M A := fun w => Some (a, w).

Definition bind {A B : Type} (m : M A) (f : A -> M B) : M B :=
  fun w => match m w with
           | Some (a, w') => f a w'
           | None => None
           end.

Definition trap {A : Type} : M A := fun _ => None.

Notation "'let*' x := m 'in' k" := (bind m (fun x => k))
  (at level 10, x name, m at level 100, k at level 200).
Notation "m ;; k" := (bind m (fun _ => k))
  (at level 100, k at level 200, right associativity).

(** [for (let i = 0; i < n; i++) body(i)] *)
Fixpoint for_from (count : nat) (i : Z) (body : Z -> M unit) : M unit :=
  match count with
  | O => ret tt
  | S k => body i ;; for_from k (i + 1) body
  end.

Definition for_lt (n : Z) (body : Z -> M unit) : M unit :=
  for_from (Z.to_nat n) 0 body.

(** ** The arena allocator ([import "allocator/arena"])

    A bump allocator: every request gets a fresh region at the current
    offset (a request of size zero takes one byte, so that regions stay
    distinct), the offset moves past it to the next multiple of 8, and the
    module traps when the 32-bit address space is exhausted. [memory.free]
    hands the region back; the arena does not reuse it. Both calls are
    journalled. *)

Definition align8 (x : Z) : Z := (x + 7) / 8 * 8.

Definition allocate (size : Z) : M Z := fun w =>
  let ptr := brk w in
  let newPtr := align8 (ptr + Z.max size 1) in
  if newPtr <=? USIZE_MOD
  then Some (ptr, journal_add (EvAlloc ptr size) (with_brk newPtr w))
  else None.

Definition free (ptr : Z) : M unit := fun w => Some (tt, journal_add (EvFree ptr) w).

(** ** Memory instructions *)

Definition store_u8 (ptr : Z) (b : byte) : M unit :=
  fun w => Some (tt, with_mem (store8 (mem w) ptr b) w).
Definition store_u32 (ptr v : Z) : M unit :=
  fun w => Some (tt, with_mem (store32 (mem w) ptr v) w).
Definition load_u8 (ptr : Z) : M byte :=
  fun w => Some (load8 (mem w) ptr, w).
Definition load_usize (ptr : Z) : M Z :=
  fun w => Some (load32 (mem w) ptr, w).

(** ** Managed arrays ([Array<u8>]) *)

Definition array_new : M Z := fun w =>
  let r := fresh (dom (arrays w)) in
  Some (r, with_arrays (<[r := []]> (arrays w)) w).

Definition array_length (a : Z) : M Z := fun w =>
  match arrays w !! a with
  | Some l => Some (Z.of_nat (length l), w)
  | None => None
  end.

(** [data[i]]; within bounds [unchecked(data[i])] is the same read. *)
Definition array_get (a i : Z) : M byte := fun w =>
  match arrays w !! a with
  | Some l => match l !! Z.to_nat i with
              | Some b => Some (b, w)
              | None => None
              end
  | None => None
  end.

(** [data.push(b)] *)
Definition array_push (a : Z) (b : byte) : M unit := fun w =>
  match arrays w !! a with
  | Some l => Some (tt, with_arrays (<[a := l ++ [b]]> (arrays w)) w)
  | None => None
  end.

(** ** The WASI host *)

(** The host decodes [n] I/O vectors, each two little-endian [u32]:
    the buffer address and its length. *)
Fixpoint read_iovs (m : gmap Z byte) (iov : Z) (n : nat) : list (Z * Z) :=
  match n with
  | O => []
  | S k => (load32 m iov, load32 m (iov + 4)) :: read_iovs m (iov + 8) k
  end.

Definition region (m : gmap Z byte) (v : Z * Z) : list byte :=
  load_bytes m (fst v) (Z.to_nat (snd v)).

Definition capacity (vecs : list (Z * Z)) : nat :=
  fold_right (fun v acc => (Z.to_nat (snd v) + acc)%nat) O vecs.

(** Fill the regions, in order, with [bs]. *)
Fixpoint scatter (m : gmap Z byte) (vecs : list (Z * Z)) (bs : list byte)
  : gmap Z byte :=
  match vecs with
  | [] => m
  | v :: vs =>
      scatter (store_bytes m (fst v) (take (Z.to_nat (snd v)) bs)) vs
              (drop (Z.to_nat (snd v)) bs)
  end.

(** The outcome of the next call and the rest of the plan; an exhausted
    plan means a well-behaved host from then on. *)
Definition next_write (plan : list WriteOutcome) : WriteOutcome * list WriteOutcome :=
  match plan with
  | [] => (WFull, [])
  | o :: p => (o, p)
  end.

Definition next_read (plan : list ReadOutcome) : ReadOutcome * list ReadOutcome :=
  match plan with
  | [] => (RFull, [])
  | o :: p => (o, p)
  end.

(** The part of a write request the host takes over. *)
Definition accepted (o : WriteOutcome) (bs : list byte) : list byte :=
  match o with
  | WFull => bs
  | WShort k => take k bs
  | WFail _ => []
  end.

(** The number of bytes a successful read hands over when [room] bytes
    both fit the buffers and are pending. *)
Definition granted (o : ReadOutcome) (room : nat) : nat :=
  match o with
  | RFull => room
  | RShort k => Nat.min (S k) room
  | RFail _ _ _ => O
  end.

Definition read_fails (o : ReadOutcome) : bool :=
  match o with
  | RFail _ _ _ => true
  | _ => false
  end.

Definition accept (fd nwritten : Z) (bs : list byte) (w : World) : World :=
  with_mem (store32 (mem w) nwritten (Z.of_nat (length bs)))
    (with_output (<[fd := delivered w fd ++ bs]> (output w)) w).

Definition fd_write (fd iovs iovs_len nwritten : Z) : M Z := fun w =>
  let vecs := read_iovs (mem w) iovs (Z.to_nat iovs_len) in
  let payload := map (region (mem w)) vecs in
  let o := fst (next_write (wplan w)) in
  let w1 := with_wplan (snd (next_write (wplan w)))
              (journal_add (EvFdWrite fd vecs payload) w) in
  match o with
  | WFail e => Some (Z.pos e, w1)
  | _ => Some (SUCCESS, accept fd nwritten (accepted o (concat payload)) w1)
  end.

Definition transfer (fd nread : Z) (vecs : list (Z * Z)) (n : nat) (w : World)
  : World :=
  with_mem (store32 (scatter (mem w) vecs (take n (pending w fd))) nread (Z.of_nat n))
    (with_input (<[fd := drop n (pending w fd)]> (input w)) w).

Definition fd_read (fd iovs iovs_len nread : Z) : M Z := fun w =>
  let vecs := read_iovs (mem w) iovs (Z.to_nat iovs_len) in
  let room := Nat.min (capacity vecs) (length (pending w fd)) in
  let o := fst (next_read (rplan w)) in
  let w1 := with_rplan (snd (next_read (rplan w))) (journal_add (EvFdRead fd vecs) w) in
  match o with
  | RFull | RShort _ => Some (SUCCESS, transfer fd nread vecs (granted o room) w1)
  | RFail e junk cnt =>
      let m1 := scatter (mem w1) vecs (take (capacity vecs) junk) in
      let m2 := match cnt with
                | Some c => store32 m1 nread c
                | None => m1
                end in
      Some (Z.pos e, with_mem m2 w1)
  end.

Definition fd_close (fd : Z) : M Z := fun w =>
  Some (SUCCESS, journal_add (EvFdClose fd) w).

(** ** Strings

    An AssemblyScript [string] is a sequence of UTF-16 code units. The
    conversions to and from UTF-8 belong to the language's standard library;
    the embedding is parametric in them. *)

Definition Str : Type := list Z.

Class Codec : Type := {
  utf8 : Str -> list byte;          (* the UTF-8 encoding of a string *)
  decode_utf8 : list byte -> Str    (* the string a byte sequence decodes to *)
}.

Section StringLibrary.
Context {codec : Codec}.

(** [s.lengthUTF8]: the encoded length, counting the terminating NUL. *)
Definition lengthUTF8 (s : Str) : Z := Z.of_nat (length (utf8 s)) + 1.

Definition store_bytes_at (ptr : Z) (bs : list byte) : M unit :=
  fun w => Some (tt, with_mem (store_bytes (mem w) ptr bs) w).

(** [s.toUTF8()]: a fresh region of [lengthUTF8] bytes holding the
    encoding and a NUL; the caller owns it. *)
Definition toUTF8 (s : Str) : M Z :=
  let* buf := allocate (lengthUTF8 s) in
  store_bytes_at buf (utf8 s ++ [Byte.x00]) ;;
  ret buf.

(** [String.fromUTF8(ptr, len)] *)
Definition fromUTF8 (ptr len : Z) : M Str :=
  fun w => Some (decode_utf8 (load_bytes (mem w) ptr (Z.to_nat len)), w).
End StringLibrary.

(** ** [class IO] *)

Module IO.
Section WithCodec.
Context {codec : Codec}.

Definition close (fd : Z) : M unit :=
  fd_close fd ;; ret tt.

Definition write (fd : Z) (data : Z) : M unit :=
  let* data_buf_len := array_length data in
  let* data_buf := allocate data_buf_len in
  for_lt data_buf_len (fun i =>
    let* b := array_get data i in
    store_u8 (uadd data_buf i) b) ;;
  let* iov := allocate (umul 2 sizeof_usize) in
  store_u32 iov data_buf ;;
  store_u32 (uadd iov sizeof_usize) data_buf_len ;;
  let* written_ptr := allocate sizeof_usize in
  fd_write fd iov 1 written_ptr ;;
  free written_ptr ;;
  free data_buf.

Definition writeStringLn (fd : Z) (s : Str) : M unit :=
  let s_utf8_len := usub (lengthUTF8 s) 1 in
  let* s_utf8 := toUTF8 s in
  let* iov := allocate (umul 4 sizeof_usize) in
  store_u32 iov s_utf8 ;;
  store_u32 (uadd iov sizeof_usize) s_utf8_len ;;
  let* lf := allocate 1 in
  store_u8 lf (byte.of_Z 10) ;;
  store_u32 (uadd iov (umul sizeof_usize 2)) lf ;;
  store_u32 (uadd iov (umul sizeof_usize 3)) 1 ;;
  let* written_ptr := allocate sizeof_usize in
  fd_write fd iov 2 written_ptr ;;
  free written_ptr ;;
  free s_utf8.

(** [newline: bool = false]: an omitted argument is [None]. *)
Definition writeString (fd : Z) (s : Str) (newline : option bool) : M unit :=
  if default false newline then
    writeStringLn fd s
  else
    let s_utf8_len := usub (lengthUTF8 s) 1 in
    let* s_utf8 := toUTF8 s in
    let* iov := allocate (umul 2 sizeof_usize) in
    store_u32 iov s_utf8 ;;
    store_u32 (uadd iov sizeof_usize) s_utf8_len ;;
    let* written_ptr := allocate sizeof_usize in
    fd_write fd iov 1 written_ptr ;;
    free written_ptr ;;
    free s_utf8.

(** [data: Array<u8> = []]: an omitted array is a fresh empty one. *)
Definition data_arg (data : option Z) : M Z :=
  match data with
  | Some a => ret a
  | None => array_new
  end.

(** The result [Array<u8> | null]: [None] is [null]. *)
Definition read (fd : Z) (data : option Z) (chunk_size : option Z)
  : M (option Z) :=
  let* data := data_arg data in
  let chunk_size := default 4096 chunk_size in
  let data_partial_len := chunk_size in
  let* data_partial := allocate data_partial_len in
  let* iov := allocate (umul 2 sizeof_usize) in
  store_u32 iov data_partial ;;
  store_u32 (uadd iov sizeof_usize) data_partial_len ;;
  let* read_ptr := allocate sizeof_usize in
  fd_read fd iov 1 read_ptr ;;
  let* read := load_usize read_ptr in
  (if 0 <? read then
     for_lt read (fun i =>
       let* b := load_u8 (uadd data_partial i) in
       array_push data b)
   else ret tt) ;;
  free read_ptr ;;
  free data_partial ;;
  if read <=? 0 then ret None else ret (Some data).

(** The [for (;;)] of [readAll]; the result is the final value of the
    local [read]. *)
Fixpoint readAll_loop (fuel : nat) (fd iov read_ptr data_partial data : Z)
    (read : Z) : M Z :=
  match fuel with
  | O => trap
  | S fuel' =>
      let* status := fd_read fd iov 1 read_ptr in
      if negb (status =? SUCCESS) then ret read
      else
        let* read := load_usize read_ptr in
        if read <=? 0 then ret read
        else
          for_lt read (fun i =>
            let* b := load_u8 (uadd data_partial i) in
            array_push data b) ;;
          readAll_loop fuel' fd iov read_ptr data_partial data read
  end.

Definition readAll (fuel : nat) (fd : Z) (data : option Z)
    (chunk_size : option Z) : M (option Z) :=
  let* data := data_arg data in
  let chunk_size := default 4096 chunk_size in
  let data_partial_len := chunk_size in
  let* data_partial := allocate data_partial_len in
  let* iov := allocate (umul 2 sizeof_usize) in
  store_u32 iov data_partial ;;
  store_u32 (uadd iov sizeof_usize) data_partial_len ;;
  let* read_ptr := allocate sizeof_usize in
  let* read := readAll_loop fuel fd iov read_ptr data_partial data 0 in
  free read_ptr ;;
  free data_partial ;;
  if read <? 0 then ret None else ret (Some data).

(** [readString] ignores its [chunk_size]: it calls [IO.readAll(fd)]. *)
Definition readString (fuel : nat) (fd : Z) (chunk_size : option Z)
  : M (option Str) :=
  let* s_utf8_ := readAll fuel fd None None in
  match s_utf8_ with
  | None => ret None
  | Some s_utf8 =>
      let* s_utf8_len := array_length s_utf8 in
      let* s_utf8_buf := allocate s_utf8_len in
      for_lt s_utf8_len (fun i =>
        let* b := array_get s_utf8 i in
        store_u8 (uadd s_utf8_buf i) b) ;;
      let* len := array_length s_utf8 in
      let* s := fromUTF8 s_utf8_buf len in
      free s_utf8_buf ;;
      ret (Some s)
  end.
End WithCodec.
End IO.

(** ** [class Console] *)

Module Console.
Section WithCodec.
Context {codec : Codec}.

(** [newline: bool = true] *)
Definition write (s : Str) (newline : option bool) : M unit :=
  IO.writeString 1 s (Some (default true newline)).

Definition readAll (fuel : nat) : M (option Str) :=
  IO.readString fuel 0 None.

Definition log (s : Str) : M unit :=
  write s None.

Definition error (s : Str) (newline : option bool) : M unit :=
  IO.writeString 2 s (Some (default true newline)).
End WithCodec.
End Console.

(** ** A concrete codec

    UTF-8 over UTF-16 code units, as the standard library encodes it: one,
    two or three bytes for a code unit, four for a surrogate pair. *)

Module Utf8.
Definition b (z : Z) : byte := byte.of_Z z.
Definition u (x : byte) : Z := byte.unsigned x.

Fixpoint encode (s : Str) : list byte :=
  match s with
  | [] => []
  | c1 :: rest =>
      if c1 <? 128 then b c1 :: encode rest
      else if c1 <? 2048 then
        b (Z.lor (Z.shiftr c1 6) 192) :: b (Z.lor (Z.land c1 63) 128) :: encode rest
      else
        let three :=
          [b (Z.lor (Z.shiftr c1 12) 224);
           b (Z.lor (Z.land (Z.shiftr c1 6) 63) 128);
           b (Z.lor (Z.land c1 63) 128)] in
        match rest with
        | c2 :: rest' =>
            if (Z.land c1 64512 =? 55296) && (Z.land c2 64512 =? 56320) then
              let c := 65536 + Z.shiftl (Z.land c1 1023) 10 + Z.land c2 1023 in
              b (Z.lor (Z.shiftr c 18) 240)
                :: b (Z.lor (Z.land (Z.shiftr c 12) 63) 128)
                :: b (Z.lor (Z.land (Z.shiftr c 6) 63) 128)
                :: b (Z.lor (Z.land c 63) 128)
                :: encode rest'
            else three ++ encode rest
        | [] => three
        end
  end.

Fixpoint decode (bs : list byte) : Str :=
  match bs with
  | [] => []
  | b0 :: r0 =>
      let cp := u b0 in
      if cp <? 128 then cp :: decode r0
      else if (191 <? cp) && (cp <? 224) then
        match r0 with
        | b1 :: r1 =>
            Z.lor (Z.shiftl (Z.land cp 31) 6) (Z.land (u b1) 63) :: decode r1
        | _ => []
        end
      else if 239 <? cp then
        match r0 with
        | b1 :: b2 :: b3 :: r3 =>
            let c :=
              Z.lor (Z.lor (Z.lor (Z.shiftl (Z.land cp 7) 18)
                                  (Z.shiftl (Z.land (u b1) 63) 12))
                           (Z.shiftl (Z.land (u b2) 63) 6))
                    (Z.land (u b3) 63) - 65536 in
            55296 + Z.shiftr c 10 :: 56320 + Z.land c 1023 :: decode r3
        | _ => []
        end
      else
        match r0 with
        | b1 :: b2 :: r2 =>
            Z.lor (Z.lor (Z.shiftl (Z.land cp 15) 12)
                         (Z.shiftl (Z.land (u b1) 63) 6))
                  (Z.land (u b2) 63) :: decode r2
        | _ => []
        end
  end.

Definition codec : Codec := {| utf8 := encode; decode_utf8 := decode |}.
End Utf8.

(** ** Observing a run *)

(** The events a computation added when it took [w] to [w']. *)
Definition new_events (w w' : World) : list Event :=
  drop (length (journal w)) (journal w').

Definition is_fd_write (e : Event) : bool :=
  match e with
  | EvFdWrite _ _ _ => true
  | _ => false
  end.

Definition write_calls (j : list Event) : list Event := List.filter is_fd_write j.

Definition is_fd_read (e : Event) : bool :=
  match e with
  | EvFdRead _ _ => true
  | _ => false
  end.

Definition read_calls (j : list Event) : list Event := List.filter is_fd_read j.

(** The regions allocated in a journal, and how often each was freed. *)
Fixpoint allocated (j : list Event) : list Z :=
  match j with
  | [] => []
  | EvAlloc p _ :: j' => p :: allocated j'
  | _ :: j' => allocated j'
  end.

Fixpoint free_count (p : Z) (j : list Event) : nat :=
  match j with
  | [] => O
  | EvFree q :: j' =>
      if p =? q then S (free_count p j') else free_count p j'
  | _ :: j' => free_count p j'
  end.

(** The regions allocated in [j] and never freed in [j]. *)
Definition never_freed (j : list Event) : list Z :=
  List.filter (fun p => Nat.eqb (free_count p j) 0) (allocated j).

(** The array a call works on, and what it holds when the call starts:
    the caller's array, or a fresh empty one for an omitted argument. *)
Definition target (w : World) (data : option Z) : Z :=
  match data with
  | Some a => a
  | None => fresh (dom (arrays w))
  end.

Definition target_contents (w : World) (data : option Z) : option (list byte) :=
  match data with
  | Some a => arrays w !! a
  | None => Some []
  end.

(** The world in which the call goes on after picking its target. *)
Definition seeded (w : World) (data : option Z) : World :=
  match data with
  | Some _ => w
  | None => with_arrays (<[target w data := []]> (arrays w)) w
  end.

(** The byte count the next [fd_read] on [fd] reports when it is given a
    buffer of the chunk size and does not fail. *)
Definition handed_over (w : World) (fd : Z) (chunk_size : option Z) : nat :=
  granted (fst (next_read (rplan w)))
    (Nat.min (Z.to_nat (default 4096 chunk_size)) (length (pending w fd))).

(** The regions a run of [m] from [w] allocates and never frees. *)
Definition leaked {A : Type} (m : M A) (w : World) : option (list Z) :=
  option_map (fun r => never_freed (new_events w (snd r))) (m w).

(** A host plan without failing reads. *)
Definition reads_succeed (plan : list ReadOutcome) : Prop :=
  Forall (fun o => read_fails o = false) plan.

(** The layout the read functions set up: a chunk buffer [dp] of [c]
    bytes, then the one-entry vector at [iov], then the count at [rp]. *)
Definition chunk_layout (dp c iov rp : Z) : Prop :=
  0 <= dp /\ 0 <= c /\ dp + c <= iov /\ iov + 8 <= rp /\ rp + 4 <= USIZE_MOD.

Definition vector_set (m : gmap Z byte) (iov dp c : Z) : Prop :=
  load32 m iov = dp /\ load32 m (iov + 4) = c.

(** [m] makes exactly one [fd_write] call, on [fd], whose vector covers
    [regions]; the stream of [fd] gets what the host accepts of them, all
    of them when the host accepts the request. *)
Definition emits (m : M unit) (w : World) (fd : Z) (regions : list (list byte))
  : Prop :=
  exists w' iovs,
    m w = Some (tt, w') /\
    write_calls (new_events w w') = [EvFdWrite fd iovs regions] /\
    length iovs = length regions /\
    delivered w' fd =
      delivered w fd ++ accepted (fst (next_write (wplan w))) (concat regions) /\
    (fst (next_write (wplan w)) = WFull ->
     delivered w' fd = delivered w fd ++ concat regions).

(** ** Sample worlds *)

Module Sample.
Definition hello : Str := [104; 233; 8364; 55357; 56832].
Definition bytes : list byte := [byte.of_Z 104; byte.of_Z 105].

(** Array 7 holds two bytes, array 8 is empty; nothing was written yet. *)
Definition idle : World :=
  mkWorld ∅ 1024 [] (<[8 := []]> (<[7 := bytes]> ∅)) ∅ ∅ [] [].

(** Descriptor 0 holds the encoding of [hello]; the host first makes two
    short reads. *)
Definition piped : World :=
  mkWorld ∅ 1024 [] (<[7 := bytes]> ∅) (<[0 := Utf8.encode hello]> ∅) ∅
    [RShort 2; RShort 0] [].

(** As [piped], but the third read fails after scribbling into the
    buffer and storing a count. *)
Definition faulty : World :=
  mkWorld ∅ 1024 [] (<[7 := bytes]> ∅) (<[0 := Utf8.encode hello]> ∅) ∅
    [RShort 2; RShort 0; RFail 29 bytes (Some 2)] [].

(** Descriptor 0 is at its end. *)
Definition drained : World :=
  mkWorld ∅ 1024 [] (<[7 := bytes]> ∅) (<[0 := []]> ∅) ∅ [] [].

Definition run {A : Type} (m : M A) (w : World) : World :=
  match m w with
  | Some (_, w') => w'
  | None => w
  end.
End Sample.


(** ** [index.ts]: the rain of characters

    The entry file draws falling columns of random characters through
    [Console.write]. Its [string] operations are those of the standard
    library: concatenation, [length], [slice] and the decimal [toString] of
    an [i32]. *)

(** The code units of an ASCII literal. *)
Definition str (s : String.string) : Str :=
  map (fun c => Z.of_N (Ascii.N_of_ascii c)) (String.list_ascii_of_string s).

(** [i32] arithmetic wraps modulo 2^32 into [-2^31, 2^31). *)
Definition wrap_i32 (z : Z) : Z := (z + 2 ^ 31) mod 2 ^ 32 - 2 ^ 31.

(** [n.toString()] of an [i32]: decimal digits, with a minus sign below
    zero. *)
Definition i32_toString (z : Z) : Str :=
  str (DecimalString.NilEmpty.string_of_int (Z.to_int z)).

(** [s.slice(beginIndex, endIndex)]: a negative index counts from the end,
    both are clamped to the string. *)
Definition slice (s : Str) (beginIndex endIndex : Z) : Str :=
  let len := Z.of_nat (length s) in
  let begin_ := if beginIndex <? 0 then Z.max (beginIndex + len) 0
                else Z.min beginIndex len in
  let end_ := if endIndex <? 0 then Z.max (endIndex + len) 0
              else Z.min endIndex len in
  if end_ - begin_ <=? 0 then []
  else take (Z.to_nat (end_ - begin_)) (drop (Z.to_nat begin_) s).

(** Modelled from the spec: the class [Random] that [index.ts] imports from
    [./wasa] is not in the source; the spec describes random-byte
    generation as a single opaque host call. [Random.randomBytes(1)[0]] is
    the next byte of a source of bytes that the host decides. *)
Record Entropy : Type := mkEntropy {
  draws : nat -> byte;   (* the bytes the host will hand out, in order *)
  drawn : nat            (* how many were handed out so far *)
}.

Definition randomBytes1 (e : Entropy) : byte * Entropy :=
  (draws e (drawn e), mkEntropy (draws e) (S (drawn e))).

(** The source after [k] more bytes were handed out. *)
Definition advance (e : Entropy) (k : nat) : Entropy :=
  mkEntropy (draws e) (drawn e + k).

Module Index.

(** Ansi colour codes, the cursor prefix and the alphabet. *)
Definition GREEN : Str := 27 :: str "[32m".
Definition WHITE : Str := 27 :: str "[37m".
Definition RESET : Str := 27 :: str "[0m".
Definition CTL_ESC : Str := 27 :: str "[".
Definition CHARACTERS : Str :=
  str "abcdefghijklmnopqrstuvwxyzABCDEFGHIJKLMNOPQRSTUVWXYZ0123456789@#$%^&*()".

Record Droplet : Type := mkDroplet {
  column : Z;
  row : Z;
  characterString : Str;
  frameSkip : Z;
  currentFrame : Z;
  speed : Z;
  height : Z
}.

Definition getRandomNumber (e : Entropy) : Z * Entropy :=
  let (b, e') := randomBytes1 e in (byte.unsigned b, e').

Definition getRandomCharacter (e : Entropy) : Str * Entropy :=
  let (r, e') := getRandomNumber e in
  let index := Z.rem r (Z.of_nat (length CHARACTERS)) in
  let newCharacter := slice CHARACTERS index (wrap_i32 (index + 1)) in
  (newCharacter, e').

(** [for (...; i < height; i++) characterString += getRandomCharacter()],
    with [count] iterations left. *)
Fixpoint appendRandom (count : nat) (s : Str) (e : Entropy) : Str * Entropy :=
  match count with
  | O => (s, e)
  | S k => let (c, e') := getRandomCharacter e in appendRandom k (s ++ c) e'
  end.

(** A new [Droplet] has all its fields zero until they are assigned;
    [currentFrame] is not assigned. *)
Definition createDroplet (column : Z) (e : Entropy) : Droplet * Entropy :=
  let (r1, e1) := getRandomNumber e in
  let height := wrap_i32 (Z.rem r1 10 + 3) in
  let (r2, e2) := getRandomNumber e1 in
  let speed := wrap_i32 (Z.rem r2 3 + 1) in
  let (r3, e3) := getRandomNumber e2 in
  let frameSkip := wrap_i32 (Z.rem r3 2 + 1) in
  let (s, e4) := appendRandom (Z.to_nat height) [] e3 in
  (mkDroplet column 0 s frameSkip 0 speed height, e4).

Definition updateDroplet (d : Droplet) (e : Entropy) : Droplet * Entropy :=
  let currentFrame := wrap_i32 (currentFrame d + 1) in
  if currentFrame <? frameSkip d then
    (mkDroplet (column d) (row d) (characterString d) (frameSkip d)
       currentFrame (speed d) (height d), e)
  else
    let row := wrap_i32 (row d + speed d) in
    let s := slice (characterString d) (speed d)
               (Z.of_nat (length (characterString d))) in
    let (s', e') :=
      appendRandom (Z.to_nat (height d - Z.of_nat (length s))) s e in
    (mkDroplet (column d) row s' (frameSkip d) 0 (speed d) (height d), e').

Section Drawing.
Context {codec : Codec}.

Definition printColor (value color : Str) : M unit :=
  Console.write (color ++ value ++ RESET) (Some false).

Definition flushConsole : M unit :=
  Console.write (27 :: str "[2J") (Some false).

Definition moveCursorToPosition (column row : Z) : M unit :=
  let cursorPosition :=
    CTL_ESC ++ i32_toString row ++ str ";" ++ i32_toString column ++ str "H" in
  Console.write
    (CTL_ESC ++ i32_toString row ++ str ";" ++ i32_toString column ++ str "H")
    (Some false).

Definition drawDroplet (d : Droplet) : M unit :=
  for_lt (Z.of_nat (length (characterString d))) (fun i =>
    moveCursorToPosition (column d) (wrap_i32 (row d + i)) ;;
    let color :=
      if i =? wrap_i32 (Z.of_nat (length (characterString d)) - 1)
      then WHITE else GREEN in
    printColor (slice (characterString d) i (wrap_i32 (i + 1))) color).
End Drawing.
End Index.

(** ** Observing the rain *)

(** The write requests of a journal: descriptor and regions, without the
    addresses. *)
Fixpoint write_requests (j : list Event) : list (Z * list (list byte)) :=
  match j with
  | [] => []
  | EvFdWrite fd _ payload :: j' => (fd, payload) :: write_requests j'
  | _ :: j' => write_requests j'
  end.

(** [m] prints the strings [ss], each with one [fd_write] call on
    descriptor 1 and without a newline, whenever the arena has room for
    their buffers; a host that accepts every request delivers their
    encodings in order. *)
Fixpoint print_cost `{Codec} (ss : list Str) : Z :=
  match ss with
  | [] => 0
  | s :: ss' => Z.of_nat (length (utf8 s)) + 64 + print_cost ss'
  end.

Definition prints `{Codec} (m : M unit) (ss : list Str) : Prop :=
  forall w,
    0 <= brk w -> brk w + print_cost ss <= USIZE_MOD ->
    exists w' es,
      m w = Some (tt, w') /\
      journal w' = journal w ++ es /\
      write_requests es = map (fun s => (1, [utf8 s])) ss /\
      brk w <= brk w' <= brk w + print_cost ss /\
      (wplan w = [] ->
       wplan w' = [] /\
       delivered w' 1 = delivered w 1 ++ concat (map utf8 ss)).

(** What [drawDroplet] prints for the characters [cs] from index [i] on:
    for each one the cursor sequence of its cell, then the character
    between a colour and the reset, white for the last character of the
    droplet and green for the others. *)
Fixpoint droplet_text (column row last : Z) (i : Z) (cs : Str) : list Str :=
  match cs with
  | [] => []
  | c :: cs' =>
      (Index.CTL_ESC ++ i32_toString (wrap_i32 (row + i)) ++ str ";"
         ++ i32_toString column ++ str "H")
      :: ((if i =? last then Index.WHITE else Index.GREEN) ++ [c] ++ Index.RESET)
      :: droplet_text column row last (i + 1) cs'
  end.

(** The shape every droplet of the rain has. *)
Definition droplet_ok (d : Index.Droplet) : Prop :=
  - 2 ^ 31 <= Index.row d < 2 ^ 31 /\
  3 <= Index.height d <= 12 /\
  1 <= Index.speed d <= 3 /\
  1 <= Index.frameSkip d <= 2 /\
  0 <= Index.currentFrame d < Index.frameSkip d /\
  Z.of_nat (length (Index.characterString d)) = Index.height d /\
  Forall (fun c => In c Index.CHARACTERS) (Index.characterString d).

(** [k] calls of [updateDroplet] in a row. *)
Fixpoint updates (k : nat) (d : Index.Droplet) (e : Entropy)
  : Index.Droplet * Entropy :=
  match k with
  | O => (d, e)
  | S k' => let (d', e') := Index.updateDroplet d e in updates k' d' e'
  end.

(** ** More sample worlds *)

Module SampleHost.
(** Descriptor 0 holds the two bytes of array 7. *)
Definition echoed : World :=
  mkWorld ∅ 1024 [] (<[7 := Sample.bytes]> ∅) (<[0 := Sample.bytes]> ∅) ∅ [] [].

(** Descriptor 0 holds the encoding of [hello], but the first read fails
    after scribbling two bytes into the buffer and storing the count 2. *)
Definition scribbled : World :=
  mkWorld ∅ 1024 [] (<[7 := Sample.bytes]> ∅)
    (<[0 := Utf8.encode Sample.hello]> ∅) ∅
    [RFail 29 Sample.bytes (Some 2)] [].

(** As [Sample.idle], with a host that takes one byte of the first write
    only. *)
Definition stingy : World :=
  mkWorld ∅ 1024 [] (<[8 := []]> (<[7 := Sample.bytes]> ∅)) ∅ ∅ [] [WShort 1].
End SampleHost.

Module SampleRain.
Definition dice : Entropy :=
  mkEntropy (fun n => byte.of_Z (Z.of_nat (37 * n + 11))) 0.
Definition droplet : Index.Droplet := fst (Index.createDroplet 5 dice).
Definition rest : Entropy := snd (Index.createDroplet 5 dice).
(** The droplet one frame later. *)
Definition later : Index.Droplet := fst (Index.updateDroplet droplet rest).
End SampleRain.

(** * Properties *)

(** ** Arithmetic of addresses *)

Lemma align8_bounds (x : Z) : x <= align8 x <= x + 7.
Proof. unfold align8. Z.to_euclidean_division_equations. lia. Qed.

Lemma wrap32_small (z : Z) : 0 <= z < USIZE_MOD -> wrap32 z = z.
Proof. intros H. unfold wrap32. apply Z.mod_small. exact H. Qed.

(** ** Linear memory *)

Lemma load8_store8_eq m a v : load8 (store8 m a v) a = v.
Proof. unfold load8, store8. by rewrite lookup_insert_eq. Qed.

Lemma load8_store8_ne m a a' v : a <> a' -> load8 (store8 m a v) a' = load8 m a'.
Proof. intros H. unfold load8, store8. by rewrite lookup_insert_ne. Qed.

Lemma load8_store_bytes_out bs : forall m a a',
  a' < a \/ a + Z.of_nat (length bs) <= a' ->
  load8 (store_bytes m a bs) a' = load8 m a'.
Proof.
  induction bs as [|v bs IH]; intros m a a' H; cbn [store_bytes]; [reflexivity|].
  cbn [length] in H. rewrite IH by lia. apply load8_store8_ne. lia.
Qed.

Lemma load_bytes_store_bytes_frame n : forall m a bs a',
  a' + Z.of_nat n <= a \/ a + Z.of_nat (length bs) <= a' ->
  load_bytes (store_bytes m a bs) a' n = load_bytes m a' n.
Proof.
  induction n as [|n IH]; intros m a bs a' H; cbn [load_bytes]; [reflexivity|].
  rewrite IH by lia. f_equal. apply load8_store_bytes_out. lia.
Qed.

Lemma load_bytes_store_bytes_prefix bs : forall m a tl,
  load_bytes (store_bytes m a (bs ++ tl)) a (length bs) = bs.
Proof.
  induction bs as [|v bs IH]; intros m a tl; cbn [app length load_bytes store_bytes];
    [reflexivity|].
  rewrite IH. f_equal.
  rewrite load8_store_bytes_out by lia. apply load8_store8_eq.
Qed.

Lemma load_bytes_store_bytes_same bs m a n :
  n = length bs -> load_bytes (store_bytes m a bs) a n = bs.
Proof.
  intros ->. rewrite <- (app_nil_r bs) at 1. apply load_bytes_store_bytes_prefix.
Qed.

Lemma length_load_bytes n : forall m a, length (load_bytes m a n) = n.
Proof. induction n as [|n IH]; intros m a; cbn [load_bytes length]; [reflexivity|]. by rewrite IH. Qed.

Lemma load32_store32 m a v : 0 <= v < USIZE_MOD -> load32 (store32 m a v) a = v.
Proof.
  intros H. unfold load32, store32.
  rewrite load_bytes_store_bytes_same by (symmetry; apply length_le_split).
  rewrite le_combine_split. apply Z.mod_small. exact H.
Qed.

Lemma load32_store_bytes_frame m a bs a' :
  a' + 4 <= a \/ a + Z.of_nat (length bs) <= a' ->
  load32 (store_bytes m a bs) a' = load32 m a'.
Proof.
  intros H. unfold load32. by rewrite load_bytes_store_bytes_frame by lia.
Qed.

Lemma load32_range m a : 0 <= load32 m a < USIZE_MOD.
Proof.
  unfold load32. pose proof (le_combine_bound (load_bytes m a 4)) as H.
  rewrite length_load_bytes in H. exact H.
Qed.
Lemma load32_store32_frame m a v a' :
  a' + 4 <= a \/ a + 4 <= a' -> load32 (store32 m a v) a' = load32 m a'.
Proof.
  intros H. unfold store32. apply load32_store_bytes_frame.
  rewrite length_le_split. lia.
Qed.

Lemma load32_store8_frame m a v a' :
  a' + 4 <= a \/ a + 1 <= a' -> load32 (store8 m a v) a' = load32 m a'.
Proof. intros H. apply (load32_store_bytes_frame m a [v]). cbn [length]. lia. Qed.

Lemma load_bytes_store32_frame m a v a' n :
  a' + Z.of_nat n <= a \/ a + 4 <= a' ->
  load_bytes (store32 m a v) a' n = load_bytes m a' n.
Proof.
  intros H. unfold store32. apply load_bytes_store_bytes_frame.
  rewrite length_le_split. lia.
Qed.

Lemma load_bytes_store8_frame m a v a' n :
  a' + Z.of_nat n <= a \/ a + 1 <= a' ->
  load_bytes (store8 m a v) a' n = load_bytes m a' n.
Proof. intros H. apply (load_bytes_store_bytes_frame n m a [v]). cbn [length]. lia. Qed.

Lemma load_bytes_store8_same m a v : load_bytes (store8 m a v) a 1 = [v].
Proof. cbn [load_bytes]. by rewrite load8_store8_eq. Qed.

(** ** Running the monad *)

Lemma bind_run {A B : Type} (m : M A) (f : A -> M B) w a w1 :
  m w = Some (a, w1) -> bind m f w = f a w1.
Proof. intros H. unfold bind. by rewrite H. Qed.

Lemma allocate_run size w :
  align8 (brk w + Z.max size 1) <= USIZE_MOD ->
  allocate size w =
  Some (brk w, journal_add (EvAlloc (brk w) size) (with_brk (align8 (brk w + Z.max size 1)) w)).
Proof.
  intros H. unfold allocate. cbv zeta.
  by rewrite (proj2 (Z.leb_le _ _) H).
Qed.

Lemma for_copy_in a p suf : forall pre w,
  arrays w !! a = Some (pre ++ suf) ->
  0 <= p -> p + Z.of_nat (length (pre ++ suf)) <= USIZE_MOD ->
  for_from (length suf) (Z.of_nat (length pre))
    (fun i => let* b := array_get a i in store_u8 (uadd p i) b) w =
  Some (tt, with_mem (store_bytes (mem w) (p + Z.of_nat (length pre)) suf) w).
Proof.
  induction suf as [|v suf IH]; intros pre w Ha Hp Hb.
  - destruct w; reflexivity.
  - cbn [length for_from]. unfold bind at 1. unfold bind at 1, array_get at 1.
    rewrite Ha, Nat2Z.id.
    rewrite (list_lookup_middle pre suf v (length pre) eq_refl).
    unfold store_u8 at 1.
    replace (Z.of_nat (length pre) + 1) with (Z.of_nat (length (pre ++ [v])))
      by (rewrite length_app; cbn [length]; lia).
    rewrite (IH (pre ++ [v])).
    + unfold uadd. rewrite wrap32_small
        by (rewrite length_app in Hb; cbn [length] in Hb; lia).
      rewrite length_app. cbn [length store_bytes].
      replace (p + Z.of_nat (length pre + 1)) with (p + Z.of_nat (length pre) + 1) by lia.
      destruct w; reflexivity.
    + destruct w; cbn. cbn in Ha. by rewrite <- app_assoc.
    + exact Hp.
    + rewrite <- app_assoc. exact Hb.
Qed.

Lemma for_copy_out a p n : forall i l w,
  arrays w !! a = Some l ->
  0 <= p -> 0 <= i -> p + i + Z.of_nat n <= USIZE_MOD ->
  for_from n i (fun i => let* b := load_u8 (uadd p i) in array_push a b) w =
  Some (tt, with_arrays (<[a := l ++ load_bytes (mem w) (p + i) n]> (arrays w)) w).
Proof.
  induction n as [|n IH]; intros i l w Ha Hp Hi Hb.
  - cbn [for_from load_bytes]. rewrite app_nil_r, insert_id by exact Ha.
    destruct w; reflexivity.
  - cbn [for_from load_bytes]. unfold bind at 1. unfold bind at 1, load_u8 at 1.
    unfold array_push at 1. rewrite Ha.
    unfold uadd. rewrite wrap32_small by lia.
    rewrite (IH (i + 1) (l ++ [load8 (mem w) (p + i)])).
    + destruct w; cbn. rewrite insert_insert_eq, <- app_assoc. cbn [app].
      by replace (p + (i + 1)) with (p + i + 1) by lia.
    + destruct w; cbn. apply lookup_insert_eq.
    + exact Hp.
    + lia.
    + lia.
Qed.

(** ** Symbolic execution *)

Ltac wsimpl :=
  unfold journal_add, with_mem, with_brk, with_arrays, with_input, with_output,
    with_rplan, with_wplan, pending, delivered in *;
  cbn [mem brk journal arrays input output rplan wplan fst snd] in *.

Ltac splits := repeat match goal with |- _ /\ _ => split end.

Ltac consts :=
  change (umul 2 sizeof_usize) with 8 in *;
  change (umul 4 sizeof_usize) with 16 in *;
  change (umul sizeof_usize 2) with 8 in *;
  change (umul sizeof_usize 3) with 12 in *;
  change sizeof_usize with 4 in *.

Ltac bounds :=
  wsimpl; consts; change USIZE_MOD with 4294967296 in *;
  rewrite ?length_app, ?length_take, ?length_drop in *; cbn [length] in *;
  repeat match goal with
         | |- context [align8 ?x] =>
             lazymatch goal with
             | _ : x <= align8 x <= x + 7 |- _ => fail
             | _ => pose proof (align8_bounds x)
             end
         end;
  lia.

Ltac unwrap := unfold uadd, usub; rewrite ?wrap32_small by bounds.

Ltac step :=
  first [ erewrite bind_run by (apply allocate_run; bounds)
        | erewrite bind_run by reflexivity ];
  wsimpl.

Ltac mem_frame :=
  repeat first
    [ progress (rewrite <- ?Z.add_assoc; change (8 + 4) with 12;
                change (Z.to_nat 1) with 1%nat; rewrite ?Nat2Z.id)
    | rewrite load32_store32 by bounds
    | rewrite load32_store32_frame by bounds
    | rewrite load32_store8_frame by bounds
    | rewrite load32_store_bytes_frame by bounds
    | rewrite load_bytes_store32_frame by bounds
    | rewrite load_bytes_store8_frame by bounds
    | rewrite load_bytes_store8_same
    | rewrite load_bytes_store_bytes_prefix
    | rewrite load_bytes_store_bytes_same by bounds
    | rewrite load_bytes_store_bytes_frame by bounds ].

(** ** The host calls *)

Lemma fd_write_run fd iov n np w :
  let vecs := read_iovs (mem w) iov (Z.to_nat n) in
  let payload := map (region (mem w)) vecs in
  exists st w',
    fd_write fd iov n np w = Some (st, w') /\
    journal w' = journal w ++ [EvFdWrite fd vecs payload] /\
    brk w' = brk w /\ arrays w' = arrays w /\ input w' = input w /\
    rplan w' = rplan w /\ wplan w' = snd (next_write (wplan w)) /\
    delivered w' fd =
      delivered w fd ++ accepted (fst (next_write (wplan w))) (concat payload) /\
    (forall fd', fd' <> fd -> delivered w' fd' = delivered w fd').
Proof.
  intros vecs payload. unfold fd_write. fold vecs. fold payload. cbv zeta.
  destruct (next_write (wplan w)) as [[|k|e] plan]; cbn [fst snd accepted];
    eexists _, _; (split; [reflexivity|]); unfold accept; wsimpl;
    repeat split; try reflexivity.
  - by rewrite lookup_insert_eq.
  - intros fd' Hne. by rewrite lookup_insert_ne.
  - by rewrite lookup_insert_eq.
  - intros fd' Hne. by rewrite lookup_insert_ne.
  - by rewrite app_nil_r.
Qed.

Ltac host_write :=
  match goal with
  | |- context [bind (fd_write ?f ?i ?n ?p) _ ?W] =>
      let H := fresh "Hhost" in
      pose proof (fd_write_run f i n p W) as H; cbv zeta in H;
      wsimpl; change (Z.to_nat 1) with 1%nat in H; change (Z.to_nat 2) with 2%nat in H;
      cbn [read_iovs map concat] in H; unfold region in H; cbn [fst snd] in H;
      revert H; unwrap
  end.

Lemma write_run fd a l w :
  arrays w !! a = Some l -> 0 <= brk w ->
  brk w + Z.of_nat (length l) + 64 <= USIZE_MOD ->
  exists w' data_buf iov written_ptr,
    IO.write fd a w = Some (tt, w') /\
    journal w' = journal w ++
      [EvAlloc data_buf (Z.of_nat (length l)); EvAlloc iov 8; EvAlloc written_ptr 4;
       EvFdWrite fd [(data_buf, Z.of_nat (length l))] [l];
       EvFree written_ptr; EvFree data_buf] /\
    arrays w' = arrays w /\ input w' = input w /\
    delivered w' fd = delivered w fd ++ accepted (fst (next_write (wplan w))) l /\
    (forall fd', fd' <> fd -> delivered w' fd' = delivered w fd') /\
    data_buf < iov < written_ptr /\
    brk w <= brk w' <= brk w + Z.of_nat (length l) + 64 /\
    wplan w' = snd (next_write (wplan w)) /\ rplan w' = rplan w.
Proof.
  destruct w as [m b j ar i o r wp]. wsimpl.
  intros Ha H0 Hb. unfold IO.write. consts.
  erewrite bind_run by (unfold array_length; wsimpl; rewrite Ha; reflexivity).
  step.
  erewrite bind_run.
  2:{ unfold for_lt. rewrite Nat2Z.id.
      apply (for_copy_in a b l []); wsimpl; [done|done|bounds]. }
  wsimpl. cbn [length]. rewrite Z.add_0_r.
  do 3 step. unwrap. step.
  host_write. mem_frame. rewrite app_nil_r.
  intros (st & w2 & Hrun & Hj & Hbrk & Har & Hin & Hrp & Hwp & Hd & Hd').
  erewrite bind_run by exact Hrun. step.
  eexists _, _, _, _. split; [reflexivity|]. wsimpl.
  rewrite Hj, Hbrk, <- !app_assoc. cbn [app].
  splits; first [reflexivity | assumption | bounds].
Qed.

(** ** The write side *)

Section WriteSide.
Context {codec : Codec}.

Lemma toUTF8_run s w :
  align8 (brk w + Z.max (lengthUTF8 s) 1) <= USIZE_MOD ->
  toUTF8 s w =
  Some (brk w,
        with_mem (store_bytes (mem w) (brk w) (utf8 s ++ [Byte.x00]))
          (journal_add (EvAlloc (brk w) (lengthUTF8 s))
             (with_brk (align8 (brk w + Z.max (lengthUTF8 s) 1)) w))).
Proof.
  intros H. unfold toUTF8.
  erewrite bind_run by (apply allocate_run; exact H).
  reflexivity.
Qed.

Lemma writeStringLn_run fd s w :
  0 <= brk w ->
  brk w + Z.of_nat (length (utf8 s)) + 64 <= USIZE_MOD ->
  exists w' s_utf8 iov lf written_ptr,
    IO.writeStringLn fd s w = Some (tt, w') /\
    journal w' = journal w ++
      [EvAlloc s_utf8 (Z.of_nat (length (utf8 s)) + 1); EvAlloc iov 16;
       EvAlloc lf 1; EvAlloc written_ptr 4;
       EvFdWrite fd [(s_utf8, Z.of_nat (length (utf8 s))); (lf, 1)]
         [utf8 s; [byte.of_Z 10]];
       EvFree written_ptr; EvFree s_utf8] /\
    arrays w' = arrays w /\ input w' = input w /\
    delivered w' fd =
      delivered w fd ++
      accepted (fst (next_write (wplan w))) (utf8 s ++ [byte.of_Z 10]) /\
    (forall fd', fd' <> fd -> delivered w' fd' = delivered w fd') /\
    (s_utf8 < iov /\ iov < lf /\ lf < written_ptr) /\
    brk w <= brk w' <= brk w + Z.of_nat (length (utf8 s)) + 64 /\
    wplan w' = snd (next_write (wplan w)) /\ rplan w' = rplan w.
Proof.
  destruct w as [m b j ar i o r wp]. wsimpl.
  intros H0 Hb. unfold IO.writeStringLn. consts.
  erewrite bind_run by (apply toUTF8_run; unfold lengthUTF8; bounds).
  unfold lengthUTF8. wsimpl. unwrap. rewrite Z.add_simpl_r.
  do 8 step.
  host_write. mem_frame. cbn [app].
  intros (st & w2 & Hrun & Hj & Hbrk & Har & Hin & Hrp & Hwp & Hd & Hd').
  erewrite bind_run by exact Hrun. step.
  eexists _, _, _, _, _. split; [reflexivity|]. wsimpl.
  rewrite Hj, Hbrk, <- !app_assoc. cbn [app].
  splits; first [reflexivity | assumption | bounds].
Qed.

Lemma writeString_run fd s newline w :
  default false newline = false ->
  0 <= brk w ->
  brk w + Z.of_nat (length (utf8 s)) + 64 <= USIZE_MOD ->
  exists w' s_utf8 iov written_ptr,
    IO.writeString fd s newline w = Some (tt, w') /\
    journal w' = journal w ++
      [EvAlloc s_utf8 (Z.of_nat (length (utf8 s)) + 1); EvAlloc iov 8;
       EvAlloc written_ptr 4;
       EvFdWrite fd [(s_utf8, Z.of_nat (length (utf8 s)))] [utf8 s];
       EvFree written_ptr; EvFree s_utf8] /\
    arrays w' = arrays w /\ input w' = input w /\
    delivered w' fd =
      delivered w fd ++ accepted (fst (next_write (wplan w))) (utf8 s) /\
    (forall fd', fd' <> fd -> delivered w' fd' = delivered w fd') /\
    s_utf8 < iov < written_ptr /\
    brk w <= brk w' <= brk w + Z.of_nat (length (utf8 s)) + 64 /\
    wplan w' = snd (next_write (wplan w)) /\ rplan w' = rplan w.
Proof.
  destruct w as [m b j ar i o r wp]. wsimpl.
  intros Hnl H0 Hb. unfold IO.writeString. rewrite Hnl. consts.
  erewrite bind_run by (apply toUTF8_run; unfold lengthUTF8; bounds).
  unfold lengthUTF8. wsimpl. unwrap. rewrite Z.add_simpl_r.
  do 4 step.
  host_write. mem_frame. rewrite app_nil_r.
  intros (st & w2 & Hrun & Hj & Hbrk & Har & Hin & Hrp & Hwp & Hd & Hd').
  erewrite bind_run by exact Hrun. step.
  eexists _, _, _, _. split; [reflexivity|]. wsimpl.
  rewrite Hj, Hbrk, <- !app_assoc. cbn [app].
  splits; first [reflexivity | assumption | bounds].
Qed.
End WriteSide.

(** ** The read side *)

Lemma vector_set_store_chunk m iov dp c rp bs :
  chunk_layout dp c iov rp -> (length bs <= Z.to_nat c)%nat ->
  vector_set m iov dp c -> vector_set (store_bytes m dp bs) iov dp c.
Proof.
  intros (H1 & H2 & H3 & H4 & H5) Hl [Ha Hb]. unfold vector_set.
  rewrite !load32_store_bytes_frame by lia. by split.
Qed.

Lemma vector_set_store_count m iov dp c rp v :
  chunk_layout dp c iov rp ->
  vector_set m iov dp c -> vector_set (store32 m rp v) iov dp c.
Proof.
  intros (H1 & H2 & H3 & H4 & H5) [Ha Hb]. unfold vector_set.
  rewrite !load32_store32_frame by lia. by split.
Qed.

Lemma fd_read_chunk fd dp c iov rp w :
  chunk_layout dp c iov rp -> vector_set (mem w) iov dp c ->
  let o := fst (next_read (rplan w)) in
  let n := granted o (Nat.min (Z.to_nat c) (length (pending w fd))) in
  exists st w',
    fd_read fd iov 1 rp w = Some (st, w') /\
    journal w' = journal w ++ [EvFdRead fd [(dp, c)]] /\
    brk w' = brk w /\ arrays w' = arrays w /\ output w' = output w /\
    wplan w' = wplan w /\ rplan w' = snd (next_read (rplan w)) /\
    vector_set (mem w') iov dp c /\
    (read_fails o = false ->
       st = SUCCESS /\ load32 (mem w') rp = Z.of_nat n /\
       load_bytes (mem w') dp n = take n (pending w fd) /\
       input w' = <[fd := drop n (pending w fd)]> (input w)) /\
    (read_fails o = true -> st <> SUCCESS /\ input w' = input w).
Proof.
  destruct w as [m b j ar i ou r wp]. wsimpl.
  intros Hlay Hvec. pose proof Hlay as (H1 & H2 & H3 & H4 & H5).
  destruct Hvec as [Hv1 Hv2].
  unfold fd_read. change (Z.to_nat 1) with 1%nat. cbn [read_iovs]. wsimpl.
  rewrite Hv1, Hv2. cbn [capacity fold_right snd]. rewrite Nat.add_0_r.
  set (o := fst (next_read r)).
  set (n := granted o (Nat.min (Z.to_nat c) (length (default [] (i !! fd))))).
  assert (Hn : (n <= Z.to_nat c)%nat).
  { subst n. destruct o; cbn [granted]; lia. }
  assert (Hsucc : forall v,
             vector_set (store32 (store_bytes m dp (take n (default [] (i !! fd)))) rp v)
               iov dp c).
  { intros v. apply vector_set_store_count with (rp := rp); [done|].
    apply vector_set_store_chunk with (rp := rp); [done| |by split].
    rewrite length_take; lia. }
  assert (Hcount : load32 (store32 (store_bytes m dp (take n (default [] (i !! fd))))
                             rp (Z.of_nat n)) rp = Z.of_nat n).
  { apply load32_store32. change USIZE_MOD with 4294967296 in *. lia. }
  assert (Hbytes : load_bytes (store32 (store_bytes m dp (take n (default [] (i !! fd))))
                                rp (Z.of_nat n)) dp n
                   = take n (default [] (i !! fd))).
  { rewrite load_bytes_store32_frame by lia.
    destruct (decide (n <= length (default [] (i !! fd)))%nat).
    - apply load_bytes_store_bytes_same. rewrite length_take. lia.
    - subst n. destruct o; cbn [granted] in *; lia. }
  destruct o as [|k|e junk cnt] eqn:Ho; cbn [read_fails].
  1,2: eexists _, _; split; [reflexivity|]; unfold transfer; wsimpl;
       cbn [scatter fst snd];
       rewrite (take_ge (take n _)) by (rewrite length_take; lia);
       splits; try done; apply Hsucc.
  eexists _, _; split; [reflexivity|]. wsimpl. cbn [scatter fst snd].
  splits; try done.
  destruct cnt as [v|].
  - apply vector_set_store_count with (rp := rp); [done|].
    apply vector_set_store_chunk with (rp := rp); [done| |by split].
    rewrite !length_take; lia.
  - apply vector_set_store_chunk with (rp := rp); [done| |by split].
    rewrite !length_take; lia.
Qed.

Lemma reads_succeed_next plan :
  reads_succeed plan ->
  read_fails (fst (next_read plan)) = false /\ reads_succeed (snd (next_read plan)).
Proof.
  intros H. destruct plan as [|o p]; cbn [next_read fst snd].
  - split; [reflexivity|constructor].
  - inversion H; subst. by split.
Qed.

Lemma granted_zero o c k :
  read_fails o = false -> granted o (Nat.min c k) = O -> (0 < c)%nat -> k = O.
Proof. destruct o; cbn [granted read_fails]; intros; try discriminate; lia. Qed.

Lemma readAll_loop_run fd dp c iov rp a :
  chunk_layout dp c iov rp ->
  forall fuel w l read0,
    vector_set (mem w) iov dp c -> arrays w !! a = Some l ->
    (length (pending w fd) < fuel)%nat -> 0 <= read0 ->
    exists r w' acc calls,
      IO.readAll_loop fuel fd iov rp dp a read0 w = Some (r, w') /\
      0 <= r /\
      journal w' = journal w ++ replicate (S calls) (EvFdRead fd [(dp, c)]) /\
      brk w' = brk w /\ output w' = output w /\ wplan w' = wplan w /\
      arrays w' = <[a := l ++ acc]> (arrays w) /\
      pending w fd = acc ++ pending w' fd /\
      (forall fd', fd' <> fd -> pending w' fd' = pending w fd') /\
      (reads_succeed (rplan w) -> 0 < c -> pending w' fd = []) /\
      (granted (fst (next_read (rplan w))) (Nat.min (Z.to_nat c) (length (pending w fd))) = O ->
       acc = [] /\ calls = O).
Proof.
  intros Hlay. pose proof Hlay as (H1 & H2 & H3 & H4 & H5).
  induction fuel as [|fuel IH]; intros w l read0 Hvec Ha Hfuel Hr0; [lia|].
  cbn [IO.readAll_loop].
  destruct (fd_read_chunk fd dp c iov rp w Hlay Hvec)
    as (st & w1 & Hrun & Hj & Hbrk & Har & Hout & Hwp & Hrp & Hvec1 & Hok & Hfail).
  erewrite bind_run by exact Hrun.
  set (o := fst (next_read (rplan w))) in *.
  set (n := granted o (Nat.min (Z.to_nat c) (length (pending w fd)))) in *.
  destruct (read_fails o) eqn:Hf.
  - (* the call fails: the loop is left at once *)
    destruct (Hfail eq_refl) as [Hst Hin].
    rewrite (proj2 (Z.eqb_neq st SUCCESS) Hst). cbn [negb].
    exists read0, w1, [], O. cbn [replicate]. splits; try done.
    + by rewrite app_nil_r, Har, insert_id.
    + unfold pending. by rewrite Hin.
    + intros fd' _. unfold pending. by rewrite Hin.
    + intros Hs. apply reads_succeed_next in Hs. fold o in Hs.
      destruct Hs as [Hs _]. congruence.
  - destruct (Hok eq_refl) as (Hst & Hcount & Hbytes & Hin). subst st.
    cbn [negb Z.eqb SUCCESS].
    erewrite bind_run by reflexivity. rewrite Hcount.
    assert (Hp1 : pending w1 fd = drop n (pending w fd)).
    { unfold pending at 1. by rewrite Hin, lookup_insert_eq. }
    assert (Hp1' : forall fd', fd' <> fd -> pending w1 fd' = pending w fd').
    { intros fd' Hne. unfold pending. by rewrite Hin, lookup_insert_ne. }
    destruct (Z.leb_spec (Z.of_nat n) 0) as [Hz|Hpos].
    + (* nothing was handed over: end of stream *)
      assert (n = O) as Hn0 by lia.
      exists (Z.of_nat n), w1, [], O. cbn [replicate]. splits; try done.
      * lia.
      * by rewrite app_nil_r, Har, insert_id.
      * rewrite Hp1, Hn0. reflexivity.
      * intros Hs Hc. rewrite Hp1, Hn0, drop_0.
        apply length_zero_iff_nil.
        apply (granted_zero o (Z.to_nat c)); [exact Hf|exact Hn0|lia].
    + (* [n] bytes are appended and the loop goes on *)
      assert (Hnle : (n <= Z.to_nat c)%nat /\ (n <= length (pending w fd))%nat).
      { subst n. destruct o; cbn [granted] in *; try discriminate; lia. }
      erewrite bind_run.
      2:{ unfold for_lt. rewrite Nat2Z.id.
          apply (for_copy_out a dp n 0 l w1); [by rewrite Har|lia|lia|].
          change USIZE_MOD with 4294967296 in *. lia. }
      rewrite Z.add_0_r, Hbytes.
      set (w2 := with_arrays _ w1).
      destruct (IH w2 (l ++ take n (pending w fd)) (Z.of_nat n))
        as (r & w' & acc & calls & Hloop & Hr & Hj' & Hbrk' & Hout' & Hwp' & Har'
            & Hpend & Hpend' & Hall & _).
      * exact Hvec1.
      * subst w2. cbn [arrays with_arrays]. apply lookup_insert_eq.
      * change (pending w2 fd) with (pending w1 fd). rewrite Hp1, length_drop. lia.
      * lia.
      * exists r, w', (take n (pending w fd) ++ acc), (S calls).
        splits; try done.
        -- rewrite Hj'. subst w2. cbn [journal with_arrays]. rewrite Hj.
           rewrite <- app_assoc. reflexivity.
        -- rewrite Hbrk'. exact Hbrk.
        -- rewrite Hout'. exact Hout.
        -- rewrite Hwp'. exact Hwp.
        -- rewrite Har'. subst w2. cbn [arrays with_arrays].
           rewrite insert_insert_eq, Har, app_assoc. reflexivity.
        -- change (pending w2 fd) with (pending w1 fd) in Hpend.
           rewrite <- app_assoc, <- Hpend, Hp1. symmetry. apply take_drop.
        -- intros fd' Hne. rewrite (Hpend' fd' Hne).
           change (pending w2 fd') with (pending w1 fd'). by apply Hp1'.
        -- intros Hs Hc. apply Hall; [|exact Hc].
           subst w2. cbn [rplan with_arrays]. rewrite Hrp.
           by apply reads_succeed_next.
        -- lia.
Qed.

Lemma readAll_fresh fuel fd chunk w :
  IO.readAll fuel fd None chunk w =
  IO.readAll fuel fd (Some (fresh (dom (arrays w)))) chunk
    (with_arrays (<[fresh (dom (arrays w)) := []]> (arrays w)) w).
Proof. reflexivity. Qed.

Lemma readAll_present fd a chunk w l fuel :
  let c := default 4096 chunk in
  arrays w !! a = Some l ->
  0 <= brk w -> 0 <= c -> brk w + c + 64 <= USIZE_MOD ->
  (length (pending w fd) < fuel)%nat ->
  exists w' acc calls dp iov rp,
    IO.readAll fuel fd (Some a) chunk w = Some (Some a, w') /\
    journal w' = journal w ++
      [EvAlloc dp c; EvAlloc iov 8; EvAlloc rp 4] ++
      replicate (S calls) (EvFdRead fd [(dp, c)]) ++ [EvFree rp; EvFree dp] /\
    arrays w' = <[a := l ++ acc]> (arrays w) /\
    pending w fd = acc ++ pending w' fd /\
    (forall fd', fd' <> fd -> pending w' fd' = pending w fd') /\
    (reads_succeed (rplan w) -> 0 < c -> pending w' fd = []) /\
    output w' = output w /\ wplan w' = wplan w /\
    brk w <= brk w' <= brk w + c + 40 /\
    dp < iov < rp /\
    (granted (fst (next_read (rplan w))) (Nat.min (Z.to_nat c) (length (pending w fd))) = O ->
     acc = [] /\ calls = O).
Proof.
  intros c. subst c. set (c := default 4096 chunk).
  destruct w as [m b j ar i o r wp]. wsimpl.
  intros Ha H0 Hc Hb Hfuel. unfold IO.readAll. fold c. consts.
  erewrite bind_run by reflexivity.
  do 4 step. unwrap. step.
  match goal with
  | |- context [bind (IO.readAll_loop _ _ ?iov ?rp ?dp _ _) _ ?W] =>
      destruct (readAll_loop_run fd dp c iov rp a) with (fuel := fuel) (w := W)
        (l := l) (read0 := 0)
        as (rd & w1 & acc & calls & Hloop & Hrd & Hj' & Hbrk' & Hout' & Hwp' & Har'
            & Hpend & Hpend' & Hall & Hzero)
  end.
  - unfold chunk_layout. bounds.
  - unfold vector_set. wsimpl. mem_frame. split; reflexivity.
  - exact Ha.
  - exact Hfuel.
  - lia.
  - erewrite bind_run by exact Hloop. do 2 step.
    rewrite (proj2 (Z.ltb_ge rd 0) Hrd).
    eexists _, _, _, _, _, _. split; [reflexivity|].
    revert Hj' Hbrk' Hout' Hwp' Har' Hpend Hpend' Hall Hzero. wsimpl.
    intros Hj' Hbrk' Hout' Hwp' Har' Hpend Hpend' Hall Hzero.
    splits; try done.
    + rewrite Hj', <- !app_assoc. reflexivity.
    + rewrite Hbrk'. bounds.
    + rewrite Hbrk'. bounds.
    + bounds.
    + bounds.
Qed.

Lemma read_fresh fd chunk w :
  IO.read fd None chunk w =
  IO.read fd (Some (fresh (dom (arrays w)))) chunk
    (with_arrays (<[fresh (dom (arrays w)) := []]> (arrays w)) w).
Proof. reflexivity. Qed.

Lemma read_present fd a chunk w l :
  let c := default 4096 chunk in
  let o := fst (next_read (rplan w)) in
  let n := granted o (Nat.min (Z.to_nat c) (length (pending w fd))) in
  arrays w !! a = Some l ->
  0 <= brk w -> 0 <= c -> brk w + c + 64 <= USIZE_MOD ->
  read_fails o = false ->
  exists w' dp iov rp,
    IO.read fd (Some a) chunk w =
      Some (if Nat.eqb n 0 then None else Some a, w') /\
    journal w' = journal w ++
      [EvAlloc dp c; EvAlloc iov 8; EvAlloc rp 4; EvFdRead fd [(dp, c)];
       EvFree rp; EvFree dp] /\
    arrays w' = <[a := l ++ take n (pending w fd)]> (arrays w) /\
    pending w' fd = drop n (pending w fd) /\
    output w' = output w /\
    dp < iov < rp /\
    brk w <= brk w' <= brk w + c + 64 /\
    rplan w' = snd (next_read (rplan w)) /\ wplan w' = wplan w /\
    input w' = <[fd := drop n (pending w fd)]> (input w).
Proof.
  intros c o n. subst c. set (c := default 4096 chunk) in *.
  destruct w as [m b j ar i ou r wp]. wsimpl.
  intros Ha H0 Hc Hb Hf. unfold IO.read. fold c. consts.
  erewrite bind_run by reflexivity.
  do 4 step. unwrap. step.
  match goal with
  | |- context [bind (fd_read _ ?iov _ ?rp) _ ?W] =>
      destruct (fd_read_chunk fd b c iov rp W)
        as (st & w1 & Hrun & Hj & Hbrk & Har & Hout & Hwp & Hrp & Hvec1 & Hok & _)
  end.
  - unfold chunk_layout. bounds.
  - unfold vector_set. wsimpl. mem_frame. split; reflexivity.
  - revert Hrun Hj Hbrk Har Hout Hwp Hrp Hvec1 Hok. wsimpl. fold o. fold n.
    intros Hrun Hj Hbrk Har Hout Hwp Hrp Hvec1 Hok.
    destruct (Hok Hf) as (Hst & Hcount & Hbytes & Hin).
    erewrite bind_run by exact Hrun.
    erewrite bind_run by reflexivity. rewrite Hcount.
    assert (Hnle : (n <= Z.to_nat c)%nat).
    { subst n. destruct o; cbn [granted] in *; try discriminate; lia. }
    destruct n as [|n'] eqn:Hn.
    + cbn [Z.of_nat Z.ltb Z.leb Z.compare Nat.eqb].
      do 3 step.
      eexists _, _, _, _. split; [reflexivity|]. wsimpl.
      rewrite Hj, <- !app_assoc, Hout, Hin, lookup_insert_eq. cbn [app take].
      rewrite app_nil_r, Har, ?Hbrk, ?Hrp, ?Hwp. splits; try done; try bounds.
      symmetry. by apply insert_id.
    + rewrite (proj2 (Z.ltb_lt 0 (Z.of_nat (S n')))) by lia.
      rewrite (proj2 (Z.leb_gt (Z.of_nat (S n')) 0)) by lia.
      cbn [Nat.eqb].
      erewrite bind_run.
      2:{ unfold for_lt. rewrite Nat2Z.id.
          apply (for_copy_out a b (S n') 0 l w1); [by rewrite Har|lia|lia|].
          change USIZE_MOD with 4294967296 in *. lia. }
      rewrite Z.add_0_r, Hbytes.
      do 2 step.
      eexists _, _, _, _. split; [reflexivity|]. wsimpl.
      rewrite Hj, <- !app_assoc, Hout, Hin, lookup_insert_eq, Har, ?Hbrk, ?Hrp, ?Hwp.
      cbn [app]. splits; first [done | bounds].
Qed.

Section ReadString.
Context {codec : Codec}.

Lemma readString_run fd chunk w fuel :
  0 <= brk w ->
  brk w + 4096 + Z.of_nat (length (pending w fd)) + 128 <= USIZE_MOD ->
  (length (pending w fd) < fuel)%nat ->
  exists w' acc calls dp iov rp buf,
    IO.readString fuel fd chunk w = Some (Some (decode_utf8 acc), w') /\
    journal w' = journal w ++
      [EvAlloc dp 4096; EvAlloc iov 8; EvAlloc rp 4] ++
      replicate (S calls) (EvFdRead fd [(dp, 4096)]) ++
      [EvFree rp; EvFree dp; EvAlloc buf (Z.of_nat (length acc)); EvFree buf] /\
    pending w fd = acc ++ pending w' fd /\
    (reads_succeed (rplan w) -> pending w' fd = []) /\
    output w' = output w.
Proof.
  intros H0 Hb Hfuel. unfold IO.readString.
  set (a := fresh (dom (arrays w))).
  set (w0 := with_arrays (<[a := []]> (arrays w)) w).
  destruct (readAll_present fd a None w0 [] fuel)
    as (w1 & acc & calls & dp & iov & rp & Hrun & Hj & Har & Hpend & _ & Hall
        & Hout & _ & Hbrk & _).
  { subst w0. cbn [arrays with_arrays]. apply lookup_insert_eq. }
  { exact H0. }
  { cbn [default]. lia. }
  { subst w0. cbn [default brk with_arrays]. lia. }
  { exact Hfuel. }
  erewrite bind_run by (rewrite readAll_fresh; exact Hrun).
  cbn [default app] in Hj, Har, Hall, Hbrk.
  change (pending w0 fd) with (pending w fd) in *.
  change (journal w0) with (journal w) in *.
  change (output w0) with (output w) in *.
  change (rplan w0) with (rplan w) in *.
  change (brk w0) with (brk w) in *.
  assert (Hlen : (length acc <= length (pending w fd))%nat).
  { rewrite Hpend, length_app. lia. }
  assert (Ha1 : arrays w1 !! a = Some acc).
  { rewrite Har. apply lookup_insert_eq. }
  clear Hrun Har. clearbody w0. clear w0.
  destruct w1 as [m1 b1 j1 ar1 i1 o1 r1 wp1]. wsimpl.
  erewrite bind_run by (unfold array_length; wsimpl; rewrite Ha1; reflexivity).
  step.
  erewrite bind_run.
  2:{ unfold for_lt. rewrite Nat2Z.id.
      apply (for_copy_in a b1 acc []); wsimpl; [done|lia|bounds]. }
  wsimpl. cbn [length]. rewrite Z.add_0_r.
  erewrite bind_run by (unfold array_length; wsimpl; rewrite Ha1; reflexivity).
  unfold fromUTF8. step. mem_frame. step.
  eexists _, _, _, _, _, _, _. split; [reflexivity|]. wsimpl.
  rewrite Hj, <- !app_assoc. cbn [app]. splits; try done.
  - rewrite <- !app_assoc. reflexivity.
  - intros Hs. apply Hall; [exact Hs|lia].
Qed.
End ReadString.

(** * The claims *)

Lemma new_events_app w w' es :
  journal w' = journal w ++ es -> new_events w w' = es.
Proof. intros H. unfold new_events. rewrite H. apply drop_app_length. Qed.

Lemma accepted_nil o : accepted o [] = [].
Proof. destruct o; cbn [accepted]; [reflexivity|apply take_nil|reflexivity]. Qed.

(** The concrete codec inverts itself on every ASCII string. *)
Lemma utf8_ascii_round_trip (s : Str) :
  Forall (fun c => 0 <= c < 128) s -> Utf8.decode (Utf8.encode s) = s.
Proof.
  induction 1 as [|c s Hc _ IH]; [reflexivity|].
  cbn [Utf8.encode]. rewrite (proj2 (Z.ltb_lt c 128)) by lia.
  cbn [Utf8.decode]. unfold Utf8.u, Utf8.b. rewrite byte.unsigned_of_Z.
  unfold byte.wrap. rewrite Z.mod_small by lia.
  rewrite (proj2 (Z.ltb_lt c 128)) by lia. by rewrite IH.
Qed.

Section Claims.
Context {codec : Codec}.

(** C3. [writeStringLn(d, s)] makes exactly one [fd_write] call; its
    vector has two entries, the first covering the UTF-8 encoding of [s]
    and the second a single byte of value 10; the stream of [d] gets
    what the host accepts of [utf8 s ++ [10]], and with a host that
    accepts the request exactly [utf8 s] followed by byte 10. *)
Theorem writeStringLn_single_scatter_write (fd : Z) (s : Str) (w : World) :
  0 <= brk w ->
  brk w + Z.of_nat (length (utf8 s)) + 64 <= USIZE_MOD ->
  exists w' s_utf8 lf,
    IO.writeStringLn fd s w = Some (tt, w') /\
    write_calls (new_events w w') =
      [EvFdWrite fd [(s_utf8, Z.of_nat (length (utf8 s))); (lf, 1)]
         [utf8 s; [byte.of_Z 10]]] /\
    delivered w' fd =
      delivered w fd ++
      accepted (fst (next_write (wplan w))) (utf8 s ++ [byte.of_Z 10]) /\
    (fst (next_write (wplan w)) = WFull ->
     delivered w' fd = delivered w fd ++ utf8 s ++ [byte.of_Z 10]).
Proof.
  intros H0 Hb.
  destruct (writeStringLn_run fd s w H0 Hb)
    as (w' & s_utf8 & iov & lf & wp & Hrun & Hj & _ & _ & Hd & _).
  exists w', s_utf8, lf. splits.
  - exact Hrun.
  - rewrite (new_events_app _ _ _ Hj). reflexivity.
  - exact Hd.
  - intros Hfull. rewrite Hd, Hfull. reflexivity.
Qed.

(** C8. [writeString(d, s, true)] is [writeStringLn(d, s)]: from every
    world both give the same result and the same final world, hence the
    same allocations, the same calls and the same bytes delivered; the only
    [fd_write] call of the run is the two-entry one of [writeStringLn]. *)
Theorem writeString_newline_is_writeStringLn (fd : Z) (s : Str) (w : World) :
  IO.writeString fd s (Some true) w = IO.writeStringLn fd s w /\
  (0 <= brk w ->
   brk w + Z.of_nat (length (utf8 s)) + 64 <= USIZE_MOD ->
   exists w' s_utf8 iov lf written_ptr,
     IO.writeString fd s (Some true) w = Some (tt, w') /\
     new_events w w' =
       [EvAlloc s_utf8 (Z.of_nat (length (utf8 s)) + 1); EvAlloc iov 16;
        EvAlloc lf 1; EvAlloc written_ptr 4;
        EvFdWrite fd [(s_utf8, Z.of_nat (length (utf8 s))); (lf, 1)]
          [utf8 s; [byte.of_Z 10]];
        EvFree written_ptr; EvFree s_utf8]).
Proof.
  split; [reflexivity|].
  intros H0 Hb.
  destruct (writeStringLn_run fd s w H0 Hb)
    as (w' & s_utf8 & iov & lf & wp & Hrun & Hj & _).
  exists w', s_utf8, iov, lf, wp. split.
  - exact Hrun.
  - exact (new_events_app _ _ _ Hj).
Qed.

(** C10. [Console.write] and [Console.error] append the newline unless
    told otherwise: [Console.write(s)], [Console.log(s)] and
    [Console.error(s)] make the two-entry scatter write of [utf8 s] and
    byte 10, on descriptor 1, 1 and 2; with [newline = false] they make
    the one-entry write of [utf8 s] alone. *)
Theorem Console_newline_by_default (s : Str) (w : World) :
  0 <= brk w ->
  brk w + Z.of_nat (length (utf8 s)) + 64 <= USIZE_MOD ->
  emits (Console.write s None) w 1 [utf8 s; [byte.of_Z 10]] /\
  emits (Console.log s) w 1 [utf8 s; [byte.of_Z 10]] /\
  emits (Console.error s None) w 2 [utf8 s; [byte.of_Z 10]] /\
  emits (Console.write s (Some false)) w 1 [utf8 s] /\
  emits (Console.error s (Some false)) w 2 [utf8 s].
Proof.
  intros H0 Hb.
  assert (Hln : forall fd, emits (IO.writeStringLn fd s) w fd [utf8 s; [byte.of_Z 10]]).
  { intros fd.
    destruct (writeStringLn_run fd s w H0 Hb)
      as (w' & s_utf8 & iov & lf & wp & Hrun & Hj & _ & _ & Hd & _).
    exists w', [(s_utf8, Z.of_nat (length (utf8 s))); (lf, 1)]. splits.
    - exact Hrun.
    - rewrite (new_events_app _ _ _ Hj). reflexivity.
    - reflexivity.
    - rewrite Hd. cbn [concat]. by rewrite app_nil_r.
    - intros Hfull. rewrite Hd, Hfull. cbn [accepted concat]. by rewrite app_nil_r. }
  assert (Hs : forall fd, emits (IO.writeString fd s (Some false)) w fd [utf8 s]).
  { intros fd.
    destruct (writeString_run fd s (Some false) w eq_refl H0 Hb)
      as (w' & s_utf8 & iov & wp & Hrun & Hj & _ & _ & Hd & _).
    exists w', [(s_utf8, Z.of_nat (length (utf8 s)))]. splits.
    - exact Hrun.
    - rewrite (new_events_app _ _ _ Hj). reflexivity.
    - reflexivity.
    - rewrite Hd. cbn [concat]. by rewrite app_nil_r.
    - intros Hfull. rewrite Hd, Hfull. cbn [accepted concat]. by rewrite app_nil_r. }
  splits.
  - exact (Hln 1).
  - exact (Hln 1).
  - exact (Hln 2).
  - exact (Hs 1).
  - exact (Hs 2).
Qed.
End Claims.

(** C9. [write(d, [])] asks the allocator for a data buffer of size zero,
    makes the single [fd_write] call with a one-entry vector of length
    zero, adds no byte to any stream, and returns. *)
Theorem write_empty_sequence (fd a : Z) (w : World) :
  arrays w !! a = Some [] ->
  0 <= brk w -> brk w + 64 <= USIZE_MOD ->
  exists w' data_buf iov written_ptr,
    IO.write fd a w = Some (tt, w') /\
    journal w' = journal w ++
      [EvAlloc data_buf 0; EvAlloc iov 8; EvAlloc written_ptr 4;
       EvFdWrite fd [(data_buf, 0)] [[]];
       EvFree written_ptr; EvFree data_buf] /\
    (forall fd', delivered w' fd' = delivered w fd').
Proof.
  intros Ha H0 Hb.
  destruct (write_run fd a [] w Ha H0) as
    (w' & p & iov & wp & Hrun & Hj & _ & _ & Hd & Hd' & _).
  { cbn [length]. lia. }
  exists w', p, iov, wp. splits.
  - exact Hrun.
  - exact Hj.
  - intros fd'. destruct (decide (fd' = fd)) as [->|Hne].
    + by rewrite Hd, accepted_nil, app_nil_r.
    + by apply Hd'.
Qed.

(** ** Reading *)

Lemma bind_inv {A B : Type} (m : M A) (f : A -> M B) w b w' :
  bind m f w = Some (b, w') ->
  exists a w1, m w = Some (a, w1) /\ f a w1 = Some (b, w').
Proof.
  unfold bind. destruct (m w) as [[a w1]|]; [|discriminate].
  intros H. by exists a, w1.
Qed.

(** The local [read] of [readAll] is an unsigned count: whatever the host
    does, it never becomes negative. *)
Lemma readAll_loop_nonneg fd iov rp dp a : forall fuel read0 w r w',
  0 <= read0 ->
  IO.readAll_loop fuel fd iov rp dp a read0 w = Some (r, w') -> 0 <= r.
Proof.
  induction fuel as [|fuel IH]; intros read0 w r w' H0 Hrun; [discriminate|].
  cbn [IO.readAll_loop] in Hrun.
  apply bind_inv in Hrun as (st & w1 & _ & Hrun).
  destruct (negb (st =? SUCCESS)).
  - injection Hrun as <- _. exact H0.
  - apply bind_inv in Hrun as (n & w2 & Hload & Hrun).
    injection Hload as <- <-.
    pose proof (load32_range (mem w1) rp) as [Hn _].
    destruct (load32 (mem w1) rp <=? 0).
    + injection Hrun as <- _. exact Hn.
    + apply bind_inv in Hrun as (u & w3 & _ & Hrun).
      by apply (IH _ _ _ _ Hn Hrun).
Qed.

Lemma readAll_not_null fuel fd data chunk w w' :
  IO.readAll fuel fd data chunk w <> Some (None, w').
Proof.
  unfold IO.readAll. intros Hrun.
  apply bind_inv in Hrun as (a & w1 & _ & Hrun).
  apply bind_inv in Hrun as (dp & w2 & _ & Hrun).
  apply bind_inv in Hrun as (iov & w3 & _ & Hrun).
  apply bind_inv in Hrun as (u1 & w4 & _ & Hrun).
  apply bind_inv in Hrun as (u2 & w5 & _ & Hrun).
  apply bind_inv in Hrun as (rp & w6 & _ & Hrun).
  apply bind_inv in Hrun as (rd & w7 & Hloop & Hrun).
  apply bind_inv in Hrun as (u3 & w8 & _ & Hrun).
  apply bind_inv in Hrun as (u4 & w9 & _ & Hrun).
  apply readAll_loop_nonneg in Hloop; [|lia].
  rewrite (proj2 (Z.ltb_ge rd 0) Hloop) in Hrun. discriminate.
Qed.

Lemma target_present w data l :
  target_contents w data = Some l ->
  arrays (seeded w data) !! target w data = Some l /\
  (forall fuel fd chunk,
     IO.readAll fuel fd data chunk w =
     IO.readAll fuel fd (Some (target w data)) chunk (seeded w data)) /\
  (forall fd chunk,
     IO.read fd data chunk w =
     IO.read fd (Some (target w data)) chunk (seeded w data)).
Proof.
  destruct data as [a|]; cbn [target target_contents seeded]; intros H.
  - by splits.
  - injection H as <-. cbn [arrays with_arrays]. splits.
    + apply lookup_insert_eq.
    + intros. apply readAll_fresh.
    + intros. apply read_fresh.
Qed.

Lemma seeded_same w data fd :
  brk (seeded w data) = brk w /\ pending (seeded w data) fd = pending w fd /\
  rplan (seeded w data) = rplan w /\ journal (seeded w data) = journal w.
Proof. by destruct data. Qed.

Lemma readAll_run fd data chunk w l fuel :
  let c := default 4096 chunk in
  target_contents w data = Some l ->
  0 <= brk w -> 0 <= c -> brk w + c + 64 <= USIZE_MOD ->
  (length (pending w fd) < fuel)%nat ->
  exists w' acc,
    IO.readAll fuel fd data chunk w = Some (Some (target w data), w') /\
    arrays w' !! target w data = Some (l ++ acc) /\
    pending w fd = acc ++ pending w' fd /\
    (reads_succeed (rplan w) -> 0 < c -> pending w' fd = []).
Proof.
  intros c Ht H0 Hc Hb Hfuel.
  destruct (target_present w data l Ht) as (Ha & Heq & _). rewrite Heq.
  destruct (seeded_same w data fd) as (Hb0 & Hp0 & Hr0 & _).
  destruct (readAll_present fd (target w data) chunk (seeded w data) l fuel)
    as (w' & acc & calls & dp & iov & rp & Hrun & _ & Har & Hpend & _ & Hall & _);
    rewrite ?Hb0, ?Hp0; try done.
  exists w', acc. splits.
  - exact Hrun.
  - rewrite Har. apply lookup_insert_eq.
  - by rewrite <- Hp0.
  - rewrite <- Hr0. exact Hall.
Qed.

(** C2. [readAll] never returns the no-data sentinel. Its [read < 0] test
    is on an unsigned count and never holds: no run, from any world and with
    any host behaviour, ends in [null]. With room for the three buffers and
    fuel for the stream the call returns the target array, extended by the
    bytes accumulated up to the end of the loop, whether the loop ended on
    a failed read or on a count of zero. *)
Theorem readAll_never_returns_null (fd : Z) (data chunk : option Z) (w : World) :
  (forall fuel w', IO.readAll fuel fd data chunk w <> Some (None, w')) /\
  (forall l fuel,
     target_contents w data = Some l ->
     0 <= brk w -> 0 <= default 4096 chunk ->
     brk w + default 4096 chunk + 64 <= USIZE_MOD ->
     (length (pending w fd) < fuel)%nat ->
     exists w' acc,
       IO.readAll fuel fd data chunk w = Some (Some (target w data), w') /\
       arrays w' !! target w data = Some (l ++ acc) /\
       pending w fd = acc ++ pending w' fd).
Proof.
  split.
  - intros fuel w'. apply readAll_not_null.
  - intros l fuel Ht H0 Hc Hb Hfuel.
    destruct (readAll_run fd data chunk w l fuel Ht H0 Hc Hb Hfuel)
      as (w' & acc & Hrun & Har & Hpend & _).
    by exists w', acc.
Qed.

(** C4. With a chunk size above zero, [readAll] appends bytes of the
    stream only, in stream order: the target ends as its old contents
    followed by the consumed prefix of the stream, so nothing a failed read
    left in the chunk buffer is appended. When every read succeeds the
    consumed prefix is the whole stream: all [L] bytes are appended and the
    stream is at its end, whatever [L] is against the chunk size and however
    short the single reads are. *)
Theorem readAll_accumulates_stream (fd : Z) (data chunk : option Z) (w : World)
    (l : list byte) (fuel : nat) :
  target_contents w data = Some l ->
  0 <= brk w -> 0 < default 4096 chunk ->
  brk w + default 4096 chunk + 64 <= USIZE_MOD ->
  (length (pending w fd) < fuel)%nat ->
  exists w' acc,
    IO.readAll fuel fd data chunk w = Some (Some (target w data), w') /\
    arrays w' !! target w data = Some (l ++ acc) /\
    pending w fd = acc ++ pending w' fd /\
    (reads_succeed (rplan w) ->
     acc = pending w fd /\ pending w' fd = []).
Proof.
  intros Ht H0 Hc Hb Hfuel.
  destruct (readAll_run fd data chunk w l fuel Ht H0)
    as (w' & acc & Hrun & Har & Hpend & Hall); [lia|exact Hb|exact Hfuel|].
  exists w', acc. splits; try done.
  intros Hs. specialize (Hall Hs Hc). split; [|exact Hall].
  by rewrite Hpend, Hall, app_nil_r.
Qed.

(** C5. When the one [fd_read] call of [read] reports a count of zero, as
    it does at the end of the stream, [read] returns [null] and the
    caller's array is what it was. *)
Theorem read_end_of_stream (fd a : Z) (chunk : option Z) (w : World)
    (l : list byte) :
  arrays w !! a = Some l ->
  0 <= brk w -> 0 <= default 4096 chunk ->
  brk w + default 4096 chunk + 64 <= USIZE_MOD ->
  read_fails (fst (next_read (rplan w))) = false ->
  handed_over w fd chunk = O ->
  exists w',
    IO.read fd (Some a) chunk w = Some (None, w') /\
    arrays w' !! a = Some l /\ arrays w' = arrays w.
Proof.
  intros Ha H0 Hc Hb Hf Hn.
  destruct (read_present fd a chunk w l Ha H0 Hc Hb Hf)
    as (w' & dp & iov & rp & Hrun & _ & Har & _).
  fold (handed_over w fd chunk) in Hrun, Har. rewrite Hn in Hrun, Har.
  cbn [Nat.eqb take] in Hrun, Har. rewrite app_nil_r, insert_id in Har by exact Ha.
  exists w'. splits; [exact Hrun| |exact Har]. by rewrite Har.
Qed.

(** C6. [read] allocates one buffer of the chunk size, makes exactly one
    [fd_read] call on it, and when that call reports a count [n] above
    zero it appends the [n] bytes handed over, in order, to the target
    array and returns that array. *)
Theorem read_single_chunk (fd : Z) (data chunk : option Z) (w : World)
    (l : list byte) :
  target_contents w data = Some l ->
  0 <= brk w -> 0 <= default 4096 chunk ->
  brk w + default 4096 chunk + 64 <= USIZE_MOD ->
  read_fails (fst (next_read (rplan w))) = false ->
  exists w' r dp iov rp,
    IO.read fd data chunk w = Some (r, w') /\
    journal w' = journal w ++
      [EvAlloc dp (default 4096 chunk); EvAlloc iov 8; EvAlloc rp 4;
       EvFdRead fd [(dp, default 4096 chunk)]; EvFree rp; EvFree dp] /\
    ((0 < handed_over w fd chunk)%nat ->
     r = Some (target w data) /\
     arrays w' !! target w data =
       Some (l ++ take (handed_over w fd chunk) (pending w fd)) /\
     length (take (handed_over w fd chunk) (pending w fd)) =
       handed_over w fd chunk).
Proof.
  intros Ht H0 Hc Hb Hf.
  destruct (target_present w data l Ht) as (Ha & _ & Heq). rewrite Heq.
  destruct (seeded_same w data fd) as (Hb0 & Hp0 & Hr0 & Hj0).
  destruct (read_present fd (target w data) chunk (seeded w data) l)
    as (w' & dp & iov & rp & Hrun & Hj & Har & _); rewrite ?Hb0, ?Hr0; try done.
  rewrite Hp0, Hr0 in Hrun, Har. rewrite Hj0 in Hj.
  fold (handed_over w fd chunk) in Hrun, Har.
  eexists w', _, dp, iov, rp. splits; [exact Hrun|exact Hj|].
  intros Hn. splits.
  - destruct (handed_over w fd chunk); [lia|reflexivity].
  - rewrite Har. apply lookup_insert_eq.
  - rewrite length_take. unfold handed_over in *.
    destruct (fst (next_read (rplan w))); cbn [granted] in *; lia.
Qed.

Section RoundTrip.
Context {codec : Codec}.

(** C7. What [writeString] emitted for [s] reads back as [s]: if the
    stream of [fd_in] holds exactly the bytes that [writeString] (without
    newline) delivered for [s], every read succeeds, and [s] is
    well-formed for the codec, that is the decoder inverts the encoder on
    it, then [readString] returns [s]. *)
Theorem writeString_readString_round_trip
    (fd_out fd_in : Z) (s : Str) (nl : option bool) (ch : option Z)
    (w0 w1 w : World) (fuel : nat) :
  default false nl = false ->
  0 <= brk w0 ->
  brk w0 + Z.of_nat (length (utf8 s)) + 64 <= USIZE_MOD ->
  fst (next_write (wplan w0)) = WFull ->
  delivered w0 fd_out = [] ->
  IO.writeString fd_out s nl w0 = Some (tt, w1) ->
  pending w fd_in = delivered w1 fd_out ->
  reads_succeed (rplan w) ->
  0 <= brk w ->
  brk w + 4096 + Z.of_nat (length (utf8 s)) + 128 <= USIZE_MOD ->
  (length (utf8 s) < fuel)%nat ->
  decode_utf8 (utf8 s) = s ->
  exists w',
    IO.readString fuel fd_in ch w = Some (Some s, w').
Proof.
  intros Hnl H0 Hb Hfull Hempty Hwrite Hstream Hreads Hr0 Hrb Hfuel Hwf.
  destruct (writeString_run fd_out s nl w0 Hnl H0 Hb)
    as (w1' & p & iov & wp & Hrun & _ & _ & _ & Hd & _).
  rewrite Hwrite in Hrun. injection Hrun as <-.
  rewrite Hempty, Hfull in Hd. cbn [accepted app] in Hd.
  rewrite Hd in Hstream.
  destruct (readString_run fd_in ch w fuel)
    as (w' & acc & calls & dp & iov' & rp & buf & Hread & _ & Hpend & Hall & _).
  { exact Hr0. }
  { rewrite Hstream. exact Hrb. }
  { rewrite Hstream. exact Hfuel. }
  exists w'. rewrite Hread. do 3 f_equal.
  rewrite (Hall Hreads), app_nil_r in Hpend.
  rewrite <- Hpend, Hstream. exact Hwf.
Qed.
End RoundTrip.

(** ** What stays allocated

    The count buffer and the data buffer of every operation are freed, once
    each; the I/O vector list never is, nor is the newline byte of
    [writeStringLn]. *)

Lemma allocated_reads n fd v tl :
  allocated (replicate n (EvFdRead fd v) ++ tl) = allocated tl.
Proof. induction n as [|n IH]; [reflexivity|exact IH]. Qed.

Lemma free_count_reads p n fd v tl :
  free_count p (replicate n (EvFdRead fd v) ++ tl) = free_count p tl.
Proof. induction n as [|n IH]; [reflexivity|exact IH]. Qed.

Ltac count_frees :=
  unfold never_freed;
  cbn [app allocated]; rewrite ?allocated_reads; cbn [allocated List.filter];
  cbn [app free_count]; rewrite ?free_count_reads; cbn [free_count];
  repeat match goal with
         | |- context [?a =? ?a] => rewrite (Z.eqb_refl a)
         | |- context [?a =? ?b] => rewrite (proj2 (Z.eqb_neq a b)) by lia
         end;
  cbn [Nat.eqb].

Lemma write_leaks_vector fd a l w :
  arrays w !! a = Some l -> 0 <= brk w ->
  brk w + Z.of_nat (length l) + 64 <= USIZE_MOD ->
  exists iov, leaked (IO.write fd a) w = Some [iov].
Proof.
  intros Ha H0 Hb.
  destruct (write_run fd a l w Ha H0 Hb)
    as (w' & p & iov & wp & Hrun & Hj & _ & _ & _ & _ & Hlt & _).
  exists iov. unfold leaked. rewrite Hrun. cbn [option_map snd].
  rewrite (new_events_app _ _ _ Hj). count_frees. reflexivity.
Qed.

Lemma read_leaks_vector fd a chunk w l :
  arrays w !! a = Some l ->
  0 <= brk w -> 0 <= default 4096 chunk ->
  brk w + default 4096 chunk + 64 <= USIZE_MOD ->
  read_fails (fst (next_read (rplan w))) = false ->
  exists iov, leaked (IO.read fd (Some a) chunk) w = Some [iov].
Proof.
  intros Ha H0 Hc Hb Hf.
  destruct (read_present fd a chunk w l Ha H0 Hc Hb Hf)
    as (w' & dp & iov & rp & Hrun & Hj & _ & _ & _ & Hlt & _).
  exists iov. unfold leaked. rewrite Hrun. cbn [option_map snd].
  rewrite (new_events_app _ _ _ Hj). count_frees. reflexivity.
Qed.

Lemma readAll_leaks_vector fd a chunk w l fuel :
  arrays w !! a = Some l ->
  0 <= brk w -> 0 <= default 4096 chunk ->
  brk w + default 4096 chunk + 64 <= USIZE_MOD ->
  (length (pending w fd) < fuel)%nat ->
  exists iov, leaked (IO.readAll fuel fd (Some a) chunk) w = Some [iov].
Proof.
  intros Ha H0 Hc Hb Hfuel.
  destruct (readAll_present fd a chunk w l fuel Ha H0 Hc Hb Hfuel)
    as (w' & acc & calls & dp & iov & rp & Hrun & Hj & _ & _ & _ & _ & _ & _ & _ & Hlt & _).
  exists iov. unfold leaked. rewrite Hrun. cbn [option_map snd].
  rewrite (new_events_app _ _ _ Hj). count_frees. reflexivity.
Qed.

Section Leaks.
Context {codec : Codec}.

Lemma writeString_leaks_vector fd s newline w :
  default false newline = false ->
  0 <= brk w ->
  brk w + Z.of_nat (length (utf8 s)) + 64 <= USIZE_MOD ->
  exists iov, leaked (IO.writeString fd s newline) w = Some [iov].
Proof.
  intros Hnl H0 Hb.
  destruct (writeString_run fd s newline w Hnl H0 Hb)
    as (w' & p & iov & wp & Hrun & Hj & _ & _ & _ & _ & Hlt & _).
  exists iov. unfold leaked. rewrite Hrun. cbn [option_map snd].
  rewrite (new_events_app _ _ _ Hj). count_frees. reflexivity.
Qed.

Lemma writeStringLn_leaks_vector_and_newline fd s w :
  0 <= brk w ->
  brk w + Z.of_nat (length (utf8 s)) + 64 <= USIZE_MOD ->
  exists iov lf, leaked (IO.writeStringLn fd s) w = Some [iov; lf].
Proof.
  intros H0 Hb.
  destruct (writeStringLn_run fd s w H0 Hb)
    as (w' & p & iov & lf & wp & Hrun & Hj & _ & _ & _ & _ & Hlt & _).
  exists iov, lf. unfold leaked. rewrite Hrun. cbn [option_map snd].
  rewrite (new_events_app _ _ _ Hj). count_frees. reflexivity.
Qed.
End Leaks.

(** C1. On the sample worlds every operation leaves a region it allocated
    unfreed: the I/O vector list in [write], [writeString], [read] (also at
    the end of the stream), [readAll] (also when a read fails) and
    [readString], and the vector list and the newline byte in
    [writeStringLn]. *)
Theorem transient_regions_left_unfreed :
  leaked (IO.write 1 7) Sample.idle = Some [1032] /\
  leaked (IO.writeString (codec := Utf8.codec) 1 Sample.hello None) Sample.idle
    = Some [1040] /\
  leaked (IO.writeStringLn (codec := Utf8.codec) 1 Sample.hello) Sample.idle
    = Some [1040; 1056] /\
  leaked (IO.read 0 (Some 7) (Some 4)) Sample.piped = Some [1032] /\
  leaked (IO.read 0 (Some 7) (Some 4)) Sample.drained = Some [1032] /\
  leaked (IO.readAll 20 0 (Some 7) (Some 4)) Sample.piped = Some [1032] /\
  leaked (IO.readAll 20 0 (Some 7) (Some 4)) Sample.faulty = Some [1032] /\
  leaked (IO.readString (codec := Utf8.codec) 20 0 None) Sample.piped
    = Some [5120].
Proof. vm_compute. repeat split. Qed.


(** * Further properties of [wasa.ts] *)

(** ** Writing *)

(** X1. [write] makes one [fd_write] call and never looks at its result:
    whatever the host does with the request, [write] returns normally, the
    caller's array and every other stream are untouched, a short write
    leaves only the first [k] bytes on the stream and a failed write
    leaves none. *)
Theorem write_single_attempt (fd a : Z) (l : list byte) (w : World) :
  arrays w !! a = Some l -> 0 <= brk w ->
  brk w + Z.of_nat (length l) + 64 <= USIZE_MOD ->
  exists w' data_buf,
    IO.write fd a w = Some (tt, w') /\
    write_calls (new_events w w') =
      [EvFdWrite fd [(data_buf, Z.of_nat (length l))] [l]] /\
    arrays w' = arrays w /\ input w' = input w /\
    (forall fd', fd' <> fd -> delivered w' fd' = delivered w fd') /\
    (fst (next_write (wplan w)) = WFull ->
     delivered w' fd = delivered w fd ++ l) /\
    (forall k, fst (next_write (wplan w)) = WShort k ->
     delivered w' fd = delivered w fd ++ take k l) /\
    (forall e, fst (next_write (wplan w)) = WFail e ->
     delivered w' fd = delivered w fd).
Proof.
  intros Ha H0 Hb.
  destruct (write_run fd a l w Ha H0 Hb)
    as (w' & p & iov & wp & Hrun & Hj & Har & Hin & Hd & Hd' & _).
  exists w', p. splits; try done.
  - rewrite (new_events_app _ _ _ Hj). reflexivity.
  - intros Ho. by rewrite Hd, Ho.
  - intros k Ho. by rewrite Hd, Ho.
  - intros e Ho. by rewrite Hd, Ho, app_nil_r.
Qed.

(** X2. Bytes written with [write] and read back with [readAll] come back
    unchanged and in order, after whatever the target array held. *)
Theorem write_readAll_round_trip
    (fd_out fd_in a : Z) (l l0 : list byte) (data chunk : option Z)
    (w0 w1 w : World) (fuel : nat) :
  arrays w0 !! a = Some l -> 0 <= brk w0 ->
  brk w0 + Z.of_nat (length l) + 64 <= USIZE_MOD ->
  fst (next_write (wplan w0)) = WFull ->
  delivered w0 fd_out = [] ->
  IO.write fd_out a w0 = Some (tt, w1) ->
  pending w fd_in = delivered w1 fd_out ->
  reads_succeed (rplan w) ->
  target_contents w data = Some l0 ->
  0 <= brk w -> 0 < default 4096 chunk ->
  brk w + default 4096 chunk + 64 <= USIZE_MOD ->
  (length l < fuel)%nat ->
  exists w',
    IO.readAll fuel fd_in data chunk w = Some (Some (target w data), w') /\
    arrays w' !! target w data = Some (l0 ++ l) /\
    pending w' fd_in = [].
Proof.
  intros Ha H0 Hb Hfull Hempty Hwrite Hstream Hreads Ht Hr0 Hc Hrb Hfuel.
  destruct (write_run fd_out a l w0 Ha H0 Hb)
    as (w1' & p & iov & wp & Hrun & _ & _ & _ & Hd & _).
  rewrite Hwrite in Hrun. injection Hrun as <-.
  rewrite Hempty, Hfull in Hd. cbn [accepted app] in Hd.
  rewrite Hd in Hstream.
  destruct (readAll_run fd_in data chunk w l0 fuel Ht Hr0)
    as (w' & acc & Hread & Har & Hpend & Hall); [lia|exact Hrb| |].
  { by rewrite Hstream. }
  specialize (Hall Hreads Hc).
  exists w'. splits; [exact Hread| |exact Hall].
  rewrite Har. do 2 f_equal.
  by rewrite <- Hstream, Hpend, Hall, app_nil_r.
Qed.

Section Sequencing.
Context {codec : Codec}.

(** X3. Two [Console.log] calls appear on descriptor 1 in program order:
    the stream gets what the host accepts of the first line, then what it
    accepts of the second, and with a host that accepts both requests the
    two lines, each ended by byte 10. *)
Theorem Console_log_twice (s1 s2 : Str) (w : World) :
  0 <= brk w ->
  brk w + Z.of_nat (length (utf8 s1)) + Z.of_nat (length (utf8 s2)) + 128
    <= USIZE_MOD ->
  exists w',
    (Console.log s1 ;; Console.log s2) w = Some (tt, w') /\
    length (write_calls (new_events w w')) = 2%nat /\
    delivered w' 1 =
      delivered w 1 ++
      accepted (fst (next_write (wplan w))) (utf8 s1 ++ [byte.of_Z 10]) ++
      accepted (fst (next_write (snd (next_write (wplan w)))))
        (utf8 s2 ++ [byte.of_Z 10]) /\
    (wplan w = [] ->
     delivered w' 1 =
       delivered w 1 ++ utf8 s1 ++ [byte.of_Z 10] ++ utf8 s2 ++ [byte.of_Z 10]).
Proof.
  intros H0 Hb.
  destruct (writeStringLn_run 1 s1 w H0)
    as (w1 & p1 & iov1 & lf1 & wp1 & Hrun1 & Hj1 & _ & _ & Hd1 & _ & _ & Hbrk1
        & Hwp1 & _); [lia|].
  destruct (writeStringLn_run 1 s2 w1)
    as (w2 & p2 & iov2 & lf2 & wp2 & Hrun2 & Hj2 & _ & _ & Hd2 & _); [lia|lia|].
  exists w2. splits.
  - unfold Console.log, Console.write. cbn [default].
    rewrite (bind_run _ _ w tt w1) by exact Hrun1. exact Hrun2.
  - unfold new_events. rewrite Hj2, Hj1, <- app_assoc, drop_app_length.
    reflexivity.
  - rewrite Hd2, Hd1, Hwp1, <- app_assoc. reflexivity.
  - intros Hplan. rewrite Hd2, Hd1, Hwp1, Hplan. cbn [next_write fst snd accepted].
    by rewrite <- !app_assoc.
Qed.
End Sequencing.

(** ** Reading *)

Lemma load_bytes_store_bytes_take bs m a n :
  (n <= length bs)%nat -> load_bytes (store_bytes m a bs) a n = take n bs.
Proof.
  intros Hn. rewrite <- (take_drop n bs) at 1.
  rewrite <- (length_take_le bs n) at 3 by exact Hn.
  apply load_bytes_store_bytes_prefix.
Qed.

(** X4. [read] does not look at the status of [fd_read]: when the call
    fails but the host has left [n] bytes in the buffer and stored the
    count [n], these bytes are appended and the array is returned as if the
    read had succeeded; the stream itself is not consumed. *)
Theorem read_ignores_status (fd a : Z) (chunk : option Z) (w : World)
    (l junk : list byte) (e : positive) (n : nat) (plan : list ReadOutcome) :
  arrays w !! a = Some l ->
  0 <= brk w -> 0 <= default 4096 chunk ->
  brk w + default 4096 chunk + 64 <= USIZE_MOD ->
  rplan w = RFail e junk (Some (Z.of_nat n)) :: plan ->
  (0 < n)%nat -> (n <= Z.to_nat (default 4096%Z chunk))%nat ->
  (n <= length junk)%nat ->
  exists w',
    IO.read fd (Some a) chunk w = Some (Some a, w') /\
    arrays w' !! a = Some (l ++ take n junk) /\
    pending w' fd = pending w fd.
Proof.
  set (c := default 4096 chunk).
  destruct w as [m b j ar i ou r wp]. wsimpl.
  intros Ha H0 Hc Hb Hplan Hn Hnc Hnj. subst r. unfold IO.read. fold c. consts.
  erewrite bind_run by reflexivity.
  do 4 step. unwrap. step.
  erewrite bind_run by reflexivity. wsimpl.
  change (Z.to_nat 1) with 1%nat. cbn [read_iovs next_read fst snd].
  mem_frame. cbn [capacity fold_right snd scatter fst]. rewrite Nat.add_0_r.
  erewrite bind_run by reflexivity. wsimpl.
  rewrite load32_store32 by (change USIZE_MOD with 4294967296 in *; lia).
  rewrite (proj2 (Z.ltb_lt 0 (Z.of_nat n))) by lia.
  rewrite (proj2 (Z.leb_gt (Z.of_nat n) 0)) by lia.
  erewrite bind_run.
  2:{ unfold for_lt. rewrite Nat2Z.id.
      apply (for_copy_out a b n 0 l); wsimpl; [done|lia|lia|].
      change USIZE_MOD with 4294967296 in *. lia. }
  wsimpl. rewrite Z.add_0_r.
  rewrite load_bytes_store32_frame by bounds.
  rewrite load_bytes_store_bytes_take by (rewrite !length_take; lia).
  rewrite !take_take, !Nat.min_id, (Nat.min_l n) by exact Hnc.
  do 2 step.
  eexists. split; [reflexivity|]. wsimpl. split; [|reflexivity].
  apply lookup_insert_eq.
Qed.

Lemma handed_over_zero_chunk w fd : handed_over w fd (Some 0) = O.
Proof.
  unfold handed_over. cbn [default]. change (Z.to_nat 0) with O.
  rewrite Nat.min_0_l. by destruct (fst (next_read (rplan w))).
Qed.

Lemma handed_over_failure w fd chunk :
  read_fails (fst (next_read (rplan w))) = true -> handed_over w fd chunk = O.
Proof.
  unfold handed_over. by destruct (fst (next_read (rplan w))).
Qed.

Lemma readAll_nothing fd data chunk w l fuel :
  target_contents w data = Some l ->
  0 <= brk w -> 0 <= default 4096 chunk ->
  brk w + default 4096 chunk + 64 <= USIZE_MOD ->
  (length (pending w fd) < fuel)%nat ->
  handed_over w fd chunk = O ->
  exists w' dp,
    IO.readAll fuel fd data chunk w = Some (Some (target w data), w') /\
    arrays w' !! target w data = Some l /\
    (forall fd', pending w' fd' = pending w fd') /\
    read_calls (new_events w w') = [EvFdRead fd [(dp, default 4096 chunk)]].
Proof.
  intros Ht H0 Hc Hb Hfuel Hzero.
  destruct (target_present w data l Ht) as (Ha & Heq & _). rewrite Heq.
  destruct (seeded_same w data fd) as (Hb0 & Hp0 & Hr0 & Hj0).
  destruct (readAll_present fd (target w data) chunk (seeded w data) l fuel)
    as (w' & acc & calls & dp & iov & rp & Hrun & Hj & Har & Hpend & Hpend' & _
        & _ & _ & _ & _ & Hnone); rewrite ?Hb0, ?Hp0; try done.
  rewrite Hp0, Hr0 in Hnone. destruct (Hnone Hzero) as [-> ->].
  rewrite app_nil_r in Har. cbn [app] in Hpend.
  exists w', dp. splits.
  - exact Hrun.
  - rewrite Har. apply lookup_insert_eq.
  - intros fd'. destruct (decide (fd' = fd)) as [->|Hne].
    + by rewrite <- Hpend, Hp0.
    + rewrite (Hpend' fd' Hne). by destruct (seeded_same w data fd') as (_ & -> & _).
  - unfold new_events. rewrite Hj, Hj0, drop_app_length. reflexivity.
Qed.

(** X5. With a chunk size of zero [readAll] gets nothing: it makes one
    [fd_read] call on an empty buffer, takes the count of zero for the end
    of the stream and returns the target as it was, however much data is
    pending. *)
Theorem readAll_zero_chunk (fd : Z) (data : option Z) (w : World)
    (l : list byte) (fuel : nat) :
  target_contents w data = Some l ->
  0 <= brk w -> brk w + 64 <= USIZE_MOD ->
  (length (pending w fd) < fuel)%nat ->
  exists w' dp,
    IO.readAll fuel fd data (Some 0) w = Some (Some (target w data), w') /\
    arrays w' !! target w data = Some l /\
    (forall fd', pending w' fd' = pending w fd') /\
    read_calls (new_events w w') = [EvFdRead fd [(dp, 0)]].
Proof.
  intros Ht H0 Hb Hfuel.
  apply (readAll_nothing fd data (Some 0) w l fuel); cbn [default id];
    first [done | lia | apply handed_over_zero_chunk].
Qed.

(** X6. When the first [fd_read] call fails, [readAll] makes no second
    call: it returns the target as it was, a result a caller cannot tell
    from that of an empty stream, and the stream keeps all its bytes. *)
Theorem readAll_first_read_fails (fd : Z) (data chunk : option Z) (w : World)
    (l : list byte) (fuel : nat) :
  target_contents w data = Some l ->
  0 <= brk w -> 0 <= default 4096 chunk ->
  brk w + default 4096 chunk + 64 <= USIZE_MOD ->
  (length (pending w fd) < fuel)%nat ->
  read_fails (fst (next_read (rplan w))) = true ->
  exists w' dp,
    IO.readAll fuel fd data chunk w = Some (Some (target w data), w') /\
    arrays w' !! target w data = Some l /\
    (forall fd', pending w' fd' = pending w fd') /\
    read_calls (new_events w w') = [EvFdRead fd [(dp, default 4096 chunk)]].
Proof.
  intros Ht H0 Hc Hb Hfuel Hf.
  apply (readAll_nothing fd data chunk w l fuel); try done.
  by apply handed_over_failure.
Qed.

(** X7. Two successive [read] calls on a descriptor continue where the
    first one stopped: when the first appends [n1] bytes, the second is
    offered the stream from byte [n1] on, and together they append the
    first [n1 + n2] bytes of the stream, in order, and leave the rest
    pending. The second call reports the end of the stream exactly when it
    got nothing. *)
Theorem read_twice_continues (fd a : Z) (chunk : option Z) (w : World)
    (l : list byte) :
  arrays w !! a = Some l ->
  0 <= brk w -> 0 <= default 4096 chunk ->
  brk w + 2 * default 4096 chunk + 128 <= USIZE_MOD ->
  read_fails (fst (next_read (rplan w))) = false ->
  read_fails (fst (next_read (snd (next_read (rplan w))))) = false ->
  let n1 := handed_over w fd chunk in
  let n2 := granted (fst (next_read (snd (next_read (rplan w)))))
              (Nat.min (Z.to_nat (default 4096 chunk))
                 (length (pending w fd) - n1)) in
  exists w',
    (IO.read fd (Some a) chunk ;; IO.read fd (Some a) chunk) w
      = Some (if Nat.eqb n2 0 then None else Some a, w') /\
    arrays w' !! a = Some (l ++ take (n1 + n2) (pending w fd)) /\
    pending w' fd = drop (n1 + n2) (pending w fd).
Proof.
  intros Ha H0 Hc Hb Hf1 Hf2 n1 n2.
  destruct (read_present fd a chunk w l Ha H0 Hc)
    as (w1 & dp & iov & rp & Hrun1 & _ & Har1 & Hp1 & _ & _ & Hbrk1 & Hrp1 & _);
    [lia|exact Hf1|].
  fold (handed_over w fd chunk) in Hrun1, Har1, Hp1.
  fold n1 in Hrun1, Har1, Hp1.
  destruct (read_present fd a chunk w1 (l ++ take n1 (pending w fd)))
    as (w2 & dp2 & iov2 & rp2 & Hrun2 & _ & Har2 & Hp2 & _);
    [by rewrite Har1, lookup_insert_eq|lia|exact Hc|lia|by rewrite Hrp1|].
  rewrite Hrp1, Hp1, length_drop in Hrun2, Har2, Hp2.
  fold n2 in Hrun2, Har2, Hp2.
  exists w2. splits.
  - rewrite (bind_run _ _ w _ w1) by exact Hrun1. exact Hrun2.
  - rewrite Har2, lookup_insert_eq, <- app_assoc. do 2 f_equal.
    rewrite <- (take_drop n1 (pending w fd)) at 3.
    rewrite take_app_add'; [reflexivity|].
    rewrite length_take. unfold n1, handed_over.
    destruct (fst (next_read (rplan w))); cbn [granted] in *; try discriminate; lia.
  - rewrite Hp2, drop_drop. reflexivity.
Qed.

(** X8. [readAll] only consumes its own descriptor and only extends its
    own target: it delivers nothing to any stream, and the pending bytes of
    every other descriptor and the contents of every other array are what
    they were. *)
Theorem readAll_touches_nothing_else (fd : Z) (data chunk : option Z)
    (w : World) (l : list byte) (fuel : nat) :
  target_contents w data = Some l ->
  0 <= brk w -> 0 <= default 4096 chunk ->
  brk w + default 4096 chunk + 64 <= USIZE_MOD ->
  (length (pending w fd) < fuel)%nat ->
  exists w' r,
    IO.readAll fuel fd data chunk w = Some (r, w') /\
    output w' = output w /\
    (forall fd', fd' <> fd -> pending w' fd' = pending w fd') /\
    (forall a', a' <> target w data -> arrays w' !! a' = arrays w !! a').
Proof.
  intros Ht H0 Hc Hb Hfuel.
  destruct (target_present w data l Ht) as (Ha & Heq & _). rewrite Heq.
  destruct (seeded_same w data fd) as (Hb0 & Hp0 & Hr0 & Hj0).
  destruct (readAll_present fd (target w data) chunk (seeded w data) l fuel)
    as (w' & acc & calls & dp & iov & rp & Hrun & _ & Har & _ & Hpend' & _
        & Hout & _); rewrite ?Hb0, ?Hp0; try done.
  exists w', (Some (target w data)). splits.
  - exact Hrun.
  - rewrite Hout. by destruct data.
  - intros fd' Hne. rewrite (Hpend' fd' Hne).
    by destruct (seeded_same w data fd') as (_ & -> & _).
  - intros a' Hne. rewrite Har, lookup_insert_ne by done.
    destruct data as [a|]; [reflexivity|].
    cbn [seeded arrays with_arrays]. by rewrite lookup_insert_ne.
Qed.

Section ReadingText.
Context {codec : Codec}.

(** X9. [readString] never returns [null], and neither does
    [Console.readAll]: from any world, with any host behaviour. *)
Theorem readString_never_returns_null (fuel : nat) (fd : Z) (ch : option Z)
    (w w' : World) :
  IO.readString fuel fd ch w <> Some (None, w') /\
  Console.readAll fuel w <> Some (None, w').
Proof.
  assert (H : forall fd ch, IO.readString fuel fd ch w <> Some (None, w')).
  { clear fd ch. intros fd ch Hrun. unfold IO.readString in Hrun.
    apply bind_inv in Hrun as ([a|] & w1 & Hread & Hrun).
    - apply bind_inv in Hrun as (n & w2 & _ & Hrun).
      apply bind_inv in Hrun as (buf & w3 & _ & Hrun).
      apply bind_inv in Hrun as (u & w4 & _ & Hrun).
      apply bind_inv in Hrun as (len & w5 & _ & Hrun).
      apply bind_inv in Hrun as (s & w6 & _ & Hrun).
      apply bind_inv in Hrun as (u' & w7 & _ & Hrun).
      discriminate.
    - by apply readAll_not_null in Hread. }
  split; [apply H|]. unfold Console.readAll. apply H.
Qed.

(** X10. [readString] reads with a chunk buffer of 4096 bytes whatever
    [chunk_size] it is given, and returns the decoding of the bytes it
    consumed: the whole stream when every read succeeds, a prefix of it
    when a read fails, so that a failure in the middle of the stream gives
    the text of a truncated byte sequence. *)
Theorem readString_decodes_what_it_read (fd : Z) (ch : option Z) (w : World)
    (fuel : nat) :
  0 <= brk w ->
  brk w + 4096 + Z.of_nat (length (pending w fd)) + 128 <= USIZE_MOD ->
  (length (pending w fd) < fuel)%nat ->
  exists w' acc dp,
    IO.readString fuel fd ch w = Some (Some (decode_utf8 acc), w') /\
    pending w fd = acc ++ pending w' fd /\
    In (EvAlloc dp 4096) (new_events w w') /\
    In (EvFdRead fd [(dp, 4096)]) (new_events w w') /\
    (reads_succeed (rplan w) -> acc = pending w fd /\ pending w' fd = []).
Proof.
  intros H0 Hb Hfuel.
  destruct (readString_run fd ch w fuel H0 Hb Hfuel)
    as (w' & acc & calls & dp & iov & rp & buf & Hrun & Hj & Hpend & Hall & _).
  exists w', acc, dp. splits; try done.
  - rewrite (new_events_app _ _ _ Hj). left. reflexivity.
  - rewrite (new_events_app _ _ _ Hj). cbn [app replicate]. do 3 right. by left.
  - intros Hs. specialize (Hall Hs). split; [|exact Hall].
    by rewrite Hpend, Hall, app_nil_r.
Qed.

(** X11. [Console.readAll] returns the decoding of everything pending on
    descriptor 0 and leaves that stream at its end; at the end of the
    stream already, it returns the decoding of no bytes. It delivers
    nothing to any stream. *)
Theorem Console_readAll_returns_input (w : World) (fuel : nat) :
  0 <= brk w ->
  brk w + 4096 + Z.of_nat (length (pending w 0)) + 128 <= USIZE_MOD ->
  (length (pending w 0) < fuel)%nat ->
  reads_succeed (rplan w) ->
  exists w',
    Console.readAll fuel w = Some (Some (decode_utf8 (pending w 0)), w') /\
    pending w' 0 = [] /\ output w' = output w.
Proof.
  intros H0 Hb Hfuel Hs.
  destruct (readString_run 0 None w fuel H0 Hb Hfuel)
    as (w' & acc & calls & dp & iov & rp & buf & Hrun & _ & Hpend & Hall & Hout).
  specialize (Hall Hs). rewrite Hall, app_nil_r in Hpend. subst acc.
  by exists w'.
Qed.
End ReadingText.

(** * Properties of [index.ts] *)

(** ** Printing *)

Lemma write_requests_app j1 j2 :
  write_requests (j1 ++ j2) = write_requests j1 ++ write_requests j2.
Proof.
  induction j1 as [|ev j1 IH]; [reflexivity|].
  destruct ev; cbn [app write_requests]; by rewrite ?IH.
Qed.

Section Printing.
Context {codec : Codec}.

Lemma print_cost_nonneg ss : 0 <= print_cost ss.
Proof. induction ss as [|s ss IH]; cbn [print_cost]; lia. Qed.

Lemma print_cost_app ss1 ss2 :
  print_cost (ss1 ++ ss2) = print_cost ss1 + print_cost ss2.
Proof.
  induction ss1 as [|s ss1 IH]; cbn [app print_cost]; lia.
Qed.

Lemma prints_nothing : prints (ret tt) [].
Proof.
  intros w H0 Hb. exists w, []. cbn [print_cost map concat] in *.
  rewrite !app_nil_r. splits; try done; lia.
Qed.

Lemma prints_then m1 m2 ss1 ss2 :
  prints m1 ss1 -> prints m2 ss2 -> prints (m1 ;; m2) (ss1 ++ ss2).
Proof.
  intros P1 P2 w H0 Hb. rewrite print_cost_app in Hb |- *.
  pose proof (print_cost_nonneg ss1). pose proof (print_cost_nonneg ss2).
  destruct (P1 w H0) as (w1 & es1 & Hrun1 & Hj1 & Hreq1 & Hbrk1 & Hd1); [lia|].
  destruct (P2 w1) as (w2 & es2 & Hrun2 & Hj2 & Hreq2 & Hbrk2 & Hd2); [lia|lia|].
  exists w2, (es1 ++ es2). splits.
  - rewrite (bind_run _ _ w tt w1) by exact Hrun1. exact Hrun2.
  - by rewrite Hj2, Hj1, app_assoc.
  - by rewrite write_requests_app, Hreq1, Hreq2, map_app.
  - lia.
  - lia.
  - intros Hplan. destruct (Hd1 Hplan) as [Hplan1 Hdel1].
    destruct (Hd2 Hplan1) as [Hplan2 Hdel2]. split; [exact Hplan2|].
    by rewrite Hdel2, Hdel1, map_app, concat_app, app_assoc.
Qed.

Lemma prints_write s : prints (Console.write s (Some false)) [s].
Proof.
  intros w H0 Hb. cbn [print_cost] in Hb |- *.
  destruct (writeString_run 1 s (Some false) w eq_refl H0)
    as (w' & p & iov & wp & Hrun & Hj & _ & _ & Hd & _ & _ & Hbrk & Hwp & _);
    [lia|].
  eexists w', _. splits.
  - exact Hrun.
  - exact Hj.
  - reflexivity.
  - lia.
  - lia.
  - intros Hplan. rewrite Hwp, Hd, Hplan. cbn [next_write fst snd accepted map concat].
    by rewrite app_nil_r.
Qed.
End Printing.

(** ** Strings and [i32] *)

Lemma wrap_i32_small z : - 2 ^ 31 <= z < 2 ^ 31 -> wrap_i32 z = z.
Proof. intros H. unfold wrap_i32. rewrite Z.mod_small; lia. Qed.

Lemma wrap_i32_add z y : wrap_i32 (wrap_i32 z + y) = wrap_i32 (z + y).
Proof.
  unfold wrap_i32.
  replace ((z + 2 ^ 31) mod 2 ^ 32 - 2 ^ 31 + y + 2 ^ 31)
    with ((z + 2 ^ 31) mod 2 ^ 32 + y) by lia.
  rewrite Zplus_mod_idemp_l. do 2 f_equal. lia.
Qed.

Lemma slice_one (pre suf : Str) (c : Z) :
  slice (pre ++ c :: suf) (Z.of_nat (length pre)) (Z.of_nat (length pre) + 1) = [c].
Proof.
  unfold slice. rewrite length_app. cbn [length].
  rewrite (proj2 (Z.ltb_ge _ 0)) by lia.
  rewrite (proj2 (Z.ltb_ge _ 0)) by lia.
  rewrite Z.min_l, Z.min_l by lia.
  rewrite (proj2 (Z.leb_gt _ 0)) by lia.
  rewrite Nat2Z.id, drop_app_length.
  replace (Z.to_nat (Z.of_nat (length pre) + 1 - Z.of_nat (length pre))) with 1%nat by lia.
  reflexivity.
Qed.

Lemma slice_to_end (s : Str) (b : Z) :
  0 <= b -> slice s b (Z.of_nat (length s)) = drop (Z.to_nat b) s.
Proof.
  intros Hb. unfold slice.
  rewrite (proj2 (Z.ltb_ge b 0)) by lia.
  rewrite (proj2 (Z.ltb_ge (Z.of_nat (length s)) 0)) by lia.
  rewrite Z.min_id.
  destruct (Z.leb_spec (Z.of_nat (length s) - Z.min b (Z.of_nat (length s))) 0).
  - symmetry. apply drop_ge. lia.
  - rewrite Z.min_l by lia. apply take_ge. rewrite length_drop. lia.
Qed.

(** ** Drawing *)

Section DrawingProperties.
Context {codec : Codec}.

Lemma drawDroplet_loop (d : Index.Droplet) : forall suf pre,
  Index.characterString d = pre ++ suf ->
  Z.of_nat (length (Index.characterString d)) < 2 ^ 31 ->
  prints
    (for_from (length suf) (Z.of_nat (length pre)) (fun i =>
       Index.moveCursorToPosition (Index.column d) (wrap_i32 (Index.row d + i)) ;;
       let color :=
         if i =? wrap_i32 (Z.of_nat (length (Index.characterString d)) - 1)
         then Index.WHITE else Index.GREEN in
       Index.printColor
         (slice (Index.characterString d) i (wrap_i32 (i + 1))) color))
    (droplet_text (Index.column d) (Index.row d)
       (Z.of_nat (length (Index.characterString d)) - 1)
       (Z.of_nat (length pre)) suf).
Proof.
  induction suf as [|c suf IH]; intros pre Hcs Hlen.
  - apply prints_nothing.
  - cbn [length for_from droplet_text].
    assert (Hi : Z.of_nat (length pre) + 1 < 2 ^ 31).
    { rewrite Hcs, length_app in Hlen. cbn [length] in Hlen. lia. }
    apply (prints_then _ _ [_; _]).
    + rewrite (wrap_i32_small (Z.of_nat (length pre) + 1)) by lia.
      rewrite (wrap_i32_small (Z.of_nat (length (Index.characterString d)) - 1))
        by lia.
      rewrite (eq_trans (f_equal (fun s => slice s _ _) Hcs) (slice_one pre suf c)).
      apply (prints_then _ _ [_] [_]); apply prints_write.
    + replace (Z.of_nat (length pre) + 1) with (Z.of_nat (length (pre ++ [c])))
        by (rewrite length_app; cbn [length]; lia).
      apply IH; [|exact Hlen]. by rewrite <- app_assoc.
Qed.

(** X12. [drawDroplet] prints, for every character of the droplet in
    turn, the cursor sequence [ESC [ row+i ; column H] of its cell and then
    the character between a colour and the reset: white for the last
    character, green for the others. Every piece is one [fd_write] call on
    descriptor 1 without a newline, and a host that accepts them delivers
    their encodings in this order. *)
Theorem drawDroplet_prints (d : Index.Droplet) :
  Z.of_nat (length (Index.characterString d)) < 2 ^ 31 ->
  prints (Index.drawDroplet d)
    (droplet_text (Index.column d) (Index.row d)
       (Z.of_nat (length (Index.characterString d)) - 1) 0
       (Index.characterString d)).
Proof.
  intros Hlen. unfold Index.drawDroplet, for_lt. rewrite Nat2Z.id.
  apply (drawDroplet_loop d (Index.characterString d) []); done.
Qed.

(** X13. The two other terminal helpers print one sequence each, with one
    [fd_write] call and no newline: [flushConsole] the clear-screen sequence
    [ESC [ 2 J], [moveCursorToPosition(column, row)] the sequence
    [ESC [ row ; column H], row first. *)
Theorem terminal_sequences (column row : Z) :
  prints Index.flushConsole [[27; 91; 50; 74]] /\
  prints (Index.moveCursorToPosition column row)
    [[27; 91] ++ i32_toString row ++ [59] ++ i32_toString column ++ [72]].
Proof. split; apply prints_write. Qed.
End DrawingProperties.

(** ** Droplets *)

Lemma slice_char (s : Str) (i : Z) :
  0 <= i < Z.of_nat (length s) ->
  exists c, slice s i (i + 1) = [c] /\ In c s.
Proof.
  intros Hi.
  destruct (lookup_lt_is_Some_2 s (Z.to_nat i)) as [c Hc]; [lia|].
  exists c. split.
  - rewrite <- (take_drop_middle s (Z.to_nat i) c Hc).
    assert (Hl : i = Z.of_nat (length (take (Z.to_nat i) s)))
      by (rewrite length_take; lia).
    generalize (drop (S (Z.to_nat i)) s). revert Hl.
    generalize (take (Z.to_nat i) s). intros pre -> suf. apply slice_one.
  - apply list_elem_of_In. by apply list_elem_of_lookup_2 in Hc.
Qed.

Lemma getRandomCharacter_run (e : Entropy) :
  exists c, Index.getRandomCharacter e = ([c], advance e 1) /\
            In c Index.CHARACTERS.
Proof.
  unfold Index.getRandomCharacter, Index.getRandomNumber, randomBytes1.
  pose proof (byte.unsigned_range (draws e (drawn e))) as Hr.
  set (r := byte.unsigned (draws e (drawn e))) in *.
  change (Z.of_nat (length Index.CHARACTERS)) with 71.
  destruct (slice_char Index.CHARACTERS (Z.rem r 71)) as (c & Hs & Hin).
  { change (Z.of_nat (length Index.CHARACTERS)) with 71.
    apply Z.rem_bound_pos; lia. }
  assert (0 <= Z.rem r 71 < 71) by (apply Z.rem_bound_pos; lia).
  exists c. rewrite wrap_i32_small, Hs by lia. split; [|exact Hin].
  unfold advance. by rewrite Nat.add_1_r.
Qed.

Lemma appendRandom_run : forall (count : nat) (s : Str) (e : Entropy),
  exists fresh,
    Index.appendRandom count s e = (s ++ fresh, advance e count) /\
    length fresh = count /\
    Forall (fun c => In c Index.CHARACTERS) fresh.
Proof.
  induction count as [|count IH]; intros s e.
  - exists []. cbn [Index.appendRandom]. rewrite app_nil_r. unfold advance.
    rewrite Nat.add_0_r. by destruct e.
  - cbn [Index.appendRandom].
    destruct (getRandomCharacter_run e) as (c & -> & Hc).
    destruct (IH (s ++ [c]) (advance e 1)) as (fresh & -> & Hlen & Hall).
    exists (c :: fresh). splits.
    + rewrite <- app_assoc. unfold advance. cbn [draws drawn app].
      do 2 f_equal. lia.
    + cbn [length]. by rewrite Hlen.
    + by constructor.
Qed.

Lemma wrap_i32_range z : - 2 ^ 31 <= wrap_i32 z < 2 ^ 31.
Proof.
  unfold wrap_i32. pose proof (Z.mod_pos_bound (z + 2 ^ 31) (2 ^ 32)). lia.
Qed.

Lemma advance_advance (e : Entropy) (j k : nat) :
  advance (advance e j) k = advance e (j + k).
Proof. unfold advance. cbn [draws drawn]. f_equal. lia. Qed.

(** X14. Whatever byte the host hands out, [getRandomCharacter] returns
    exactly one character of the alphabet and uses up one random byte. *)
Theorem getRandomCharacter_one_of_alphabet (e : Entropy) :
  exists c,
    fst (Index.getRandomCharacter e) = [c] /\
    In c Index.CHARACTERS /\
    drawn (snd (Index.getRandomCharacter e)) = S (drawn e).
Proof.
  destruct (getRandomCharacter_run e) as (c & -> & Hc).
  exists c. cbn [fst snd advance drawn]. splits; [done | done | lia].
Qed.

Lemma createDroplet_run (column : Z) (e : Entropy) :
  exists d,
    Index.createDroplet column e
      = (d, advance e (3 + Z.to_nat (Index.height d))) /\
    droplet_ok d /\
    Index.column d = column /\ Index.row d = 0 /\ Index.currentFrame d = 0.
Proof.
  unfold Index.createDroplet, Index.getRandomNumber, randomBytes1.
  cbn [draws drawn].
  pose proof (byte.unsigned_range (draws e (drawn e))) as H1.
  pose proof (byte.unsigned_range (draws e (S (drawn e)))) as H2.
  pose proof (byte.unsigned_range (draws e (S (S (drawn e))))) as H3.
  set (r1 := byte.unsigned (draws e (drawn e))) in *.
  set (r2 := byte.unsigned (draws e (S (drawn e)))) in *.
  set (r3 := byte.unsigned (draws e (S (S (drawn e))))) in *.
  assert (0 <= Z.rem r1 10 < 10) by (apply Z.rem_bound_pos; lia).
  assert (0 <= Z.rem r2 3 < 3) by (apply Z.rem_bound_pos; lia).
  assert (0 <= Z.rem r3 2 < 2) by (apply Z.rem_bound_pos; lia).
  rewrite !wrap_i32_small by lia.
  destruct (appendRandom_run (Z.to_nat (Z.rem r1 10 + 3)) []
              (mkEntropy (draws e) (S (S (S (drawn e))))))
    as (fresh & -> & Hlen & Hall).
  exists (Index.mkDroplet column 0 fresh (Z.rem r3 2 + 1) 0 (Z.rem r2 3 + 1)
            (Z.rem r1 10 + 3)).
  unfold droplet_ok.
  cbn [Index.height Index.speed Index.frameSkip Index.currentFrame
       Index.characterString Index.column Index.row app].
  splits; try first [done | lia].
  unfold advance. cbn [draws drawn]. do 2 f_equal. lia.
Qed.

(** X15. A droplet made by [createDroplet] sits in the given column at
    row 0, is 3 to 12 characters high, moves 1 to 3 rows every 1 or 2
    frames, carries as many alphabet characters as it is high, and cost
    three random bytes plus one for each character. *)
Theorem createDroplet_shape (column : Z) (e : Entropy) :
  droplet_ok (fst (Index.createDroplet column e)) /\
  Index.column (fst (Index.createDroplet column e)) = column /\
  Index.row (fst (Index.createDroplet column e)) = 0 /\
  Index.currentFrame (fst (Index.createDroplet column e)) = 0 /\
  drawn (snd (Index.createDroplet column e))
    = (drawn e + 3
       + Z.to_nat (Index.height (fst (Index.createDroplet column e))))%nat.
Proof.
  destruct (createDroplet_run column e) as (d & -> & Hok & Hc & Hr & Hf).
  cbn [fst snd advance drawn]. splits; first [done | lia].
Qed.

(** One call of [updateDroplet] on a well-shaped droplet: either the frame
    is skipped, or the droplet moves. *)
Lemma updateDroplet_run (d : Index.Droplet) (e : Entropy) :
  droplet_ok d ->
  (Index.currentFrame d + 1 < Index.frameSkip d /\
   Index.updateDroplet d e
     = (Index.mkDroplet (Index.column d) (Index.row d)
          (Index.characterString d) (Index.frameSkip d)
          (Index.currentFrame d + 1) (Index.speed d) (Index.height d), e))
  \/
  (Index.currentFrame d + 1 = Index.frameSkip d /\
   exists fresh,
     Index.updateDroplet d e
       = (Index.mkDroplet (Index.column d)
            (wrap_i32 (Index.row d + Index.speed d))
            (drop (Z.to_nat (Index.speed d)) (Index.characterString d)
               ++ fresh)
            (Index.frameSkip d) 0 (Index.speed d) (Index.height d),
          advance e (Z.to_nat (Index.speed d))) /\
     length fresh = Z.to_nat (Index.speed d) /\
     Forall (fun c => In c Index.CHARACTERS) fresh).
Proof.
  intros (Hr & Hh & Hs & Hf & Hc & Hlen & Hall).
  unfold Index.updateDroplet.
  rewrite wrap_i32_small by lia.
  destruct (Z.ltb_spec (Index.currentFrame d + 1) (Index.frameSkip d)) as [Hlt|Hge].
  - left. done.
  - right. split; [lia|].
    rewrite slice_to_end by lia.
    rewrite length_drop.
    replace (Z.to_nat (Index.height d
               - Z.of_nat (length (Index.characterString d)
                           - Z.to_nat (Index.speed d))))
      with (Z.to_nat (Index.speed d)) by lia.
    destruct (appendRandom_run (Z.to_nat (Index.speed d))
                (drop (Z.to_nat (Index.speed d)) (Index.characterString d)) e)
      as (fresh & -> & Hfl & Hfa).
    by exists fresh.
Qed.

Lemma updateDroplet_ok (d : Index.Droplet) (e : Entropy) :
  droplet_ok d -> droplet_ok (fst (Index.updateDroplet d e)).
Proof.
  intros Hok.
  destruct (updateDroplet_run d e Hok)
    as [(Hlt & ->)|(Heq & fresh & -> & Hfl & Hfa)];
    destruct Hok as (Hr & Hh & Hs & Hf & Hc & Hlen & Hall);
    unfold droplet_ok;
    cbn [fst Index.height Index.speed Index.frameSkip Index.currentFrame
         Index.characterString Index.row];
    splits; try first [done | lia | apply wrap_i32_range].
  - rewrite length_app, length_drop. lia.
  - apply Forall_app. split; [by apply Forall_drop | done].
Qed.

(** X16. [updateDroplet] keeps a droplet well shaped: its column, height,
    speed and frame skip never change, and it still carries exactly
    [height] characters of the alphabet. *)
Theorem updateDroplet_keeps_shape (d : Index.Droplet) (e : Entropy) :
  droplet_ok d ->
  droplet_ok (fst (Index.updateDroplet d e)) /\
  Index.column (fst (Index.updateDroplet d e)) = Index.column d /\
  Index.height (fst (Index.updateDroplet d e)) = Index.height d /\
  Index.speed (fst (Index.updateDroplet d e)) = Index.speed d /\
  Index.frameSkip (fst (Index.updateDroplet d e)) = Index.frameSkip d.
Proof.
  intros Hok. split; [by apply updateDroplet_ok|].
  destruct (updateDroplet_run d e Hok)
    as [(Hlt & ->)|(Heq & fresh & -> & Hfl & Hfa)]; done.
Qed.


(** X18. On the frame it moves, [updateDroplet] pushes the droplet down by
    [speed] rows (in wrapping 32-bit arithmetic), drops its first [speed]
    characters, appends [speed] fresh characters of the alphabet, restarts
    the frame count and draws [speed] random bytes. *)
Theorem updateDroplet_moves (d : Index.Droplet) (e : Entropy) :
  droplet_ok d ->
  Index.currentFrame d + 1 = Index.frameSkip d ->
  exists fresh,
    Index.updateDroplet d e
      = (Index.mkDroplet (Index.column d)
           (wrap_i32 (Index.row d + Index.speed d))
           (drop (Z.to_nat (Index.speed d)) (Index.characterString d)
              ++ fresh)
           (Index.frameSkip d) 0 (Index.speed d) (Index.height d),
         advance e (Z.to_nat (Index.speed d))) /\
    length fresh = Z.to_nat (Index.speed d) /\
    Forall (fun c => In c Index.CHARACTERS) fresh.
Proof.
  intros Hok Heq.
  destruct (updateDroplet_run d e Hok) as [(Hlt & _)|(_ & H)]; [lia | exact H].
Qed.

Lemma updates_run : forall (k : nat) (d : Index.Droplet) (e : Entropy),
  droplet_ok d ->
  let moves := (Index.currentFrame d + Z.of_nat k) / Index.frameSkip d in
  droplet_ok (fst (updates k d e)) /\
  Index.row (fst (updates k d e))
    = wrap_i32 (Index.row d + Index.speed d * moves) /\
  Index.currentFrame (fst (updates k d e))
    = (Index.currentFrame d + Z.of_nat k) mod Index.frameSkip d /\
  Index.speed (fst (updates k d e)) = Index.speed d /\
  Index.frameSkip (fst (updates k d e)) = Index.frameSkip d /\
  Index.column (fst (updates k d e)) = Index.column d /\
  Index.height (fst (updates k d e)) = Index.height d /\
  snd (updates k d e) = advance e (Z.to_nat (Index.speed d * moves)).
Proof.
  induction k as [|k IH]; intros d e Hok moves; subst moves.
  - pose proof Hok as (Hr & Hh & Hs & Hf & Hc & Hlen & Hall).
    cbn [updates fst snd]. rewrite Z.add_0_r.
    rewrite Z.div_small, Z.mod_small by lia.
    rewrite Z.mul_0_r, Z.add_0_r, wrap_i32_small by lia. splits; try done.
    unfold advance. rewrite Nat.add_0_r. by destruct e.
  - cbn [updates].
    pose proof (updateDroplet_ok d e Hok) as Hok1.
    pose proof Hok as (Hr & Hh & Hs & Hf & Hc & Hlen & Hall).
    destruct (updateDroplet_run d e Hok)
      as [(Hlt & Hrun)|(Heq & fresh & Hrun & Hfl & Hfa)];
      rewrite Hrun in *; cbn [fst] in Hok1.
    + destruct (IH _ e Hok1) as (IH1 & IH2 & IH3 & IH4 & IH5 & IH6 & IH7 & IH8).
      cbn [Index.row Index.speed Index.currentFrame Index.frameSkip
           Index.column Index.height] in IH2, IH3, IH4, IH5, IH6, IH7, IH8.
      replace (Index.currentFrame d + Z.of_nat (S k))
        with (Index.currentFrame d + 1 + Z.of_nat k) by lia.
      by splits.
    + destruct (IH _ (advance e (Z.to_nat (Index.speed d))) Hok1)
        as (IH1 & IH2 & IH3 & IH4 & IH5 & IH6 & IH7 & IH8).
      cbn [Index.row Index.speed Index.currentFrame Index.frameSkip
           Index.column Index.height] in IH2, IH3, IH4, IH5, IH6, IH7, IH8.
      rewrite Z.add_0_l in IH2, IH3, IH8.
      replace (Index.currentFrame d + Z.of_nat (S k))
        with (Z.of_nat k + 1 * Index.frameSkip d) by lia.
      rewrite Z.div_add, Z.mod_add by lia.
      pose proof (Z.div_pos (Z.of_nat k) (Index.frameSkip d)) as Hq.
      splits; try done.
      * rewrite IH2, wrap_i32_add. f_equal. lia.
      * rewrite IH8, advance_advance. f_equal. nia.
Qed.

(** X19. After [k] calls of [updateDroplet] a droplet has moved once for
    every [frameSkip] frames: it is [speed] rows further down for each move
    (in wrapping 32-bit arithmetic, so it is never sent back to the top and
    falls through to negative rows in the end), has drawn [speed] random
    bytes for each move, and is still well shaped in the same column. *)
Theorem updates_fall (k : nat) (d : Index.Droplet) (e : Entropy) :
  droplet_ok d ->
  let moves := (Index.currentFrame d + Z.of_nat k) / Index.frameSkip d in
  droplet_ok (fst (updates k d e)) /\
  Index.column (fst (updates k d e)) = Index.column d /\
  Index.row (fst (updates k d e))
    = wrap_i32 (Index.row d + Index.speed d * moves) /\
  Index.currentFrame (fst (updates k d e))
    = (Index.currentFrame d + Z.of_nat k) mod Index.frameSkip d /\
  drawn (snd (updates k d e))
    = (drawn e + Z.to_nat (Index.speed d * moves))%nat.
Proof.
  intros Hok moves.
  destruct (updates_run k d e Hok) as (H1 & H2 & H3 & H4 & H5 & H6 & H7 & H8).
  fold moves in H2, H8. rewrite H8. by splits.
Qed.

(** * The theorems at the sample worlds *)

Ltac calc :=
  vm_compute;
  first [ reflexivity | discriminate | (intros; discriminate) | repeat constructor ].

Lemma readAll_never_returns_null_witness :
  (forall fuel w',
     IO.readAll fuel 0 (Some 7) (Some 4) Sample.faulty <> Some (None, w')) /\
  exists w' acc,
    IO.readAll 11 0 (Some 7) (Some 4) Sample.faulty = Some (Some 7, w') /\
    arrays w' !! 7 = Some (Sample.bytes ++ acc) /\
    pending Sample.faulty 0 = acc ++ pending w' 0.
Proof.
  destruct (readAll_never_returns_null 0 (Some 7) (Some 4) Sample.faulty)
    as [Hnever Hreturns].
  split; [exact Hnever|].
  apply (Hreturns Sample.bytes 11%nat); calc.
Defined.

Lemma writeStringLn_single_scatter_write_witness :
  exists w' s_utf8 lf,
    IO.writeStringLn (codec := Utf8.codec) 1 Sample.hello Sample.idle
      = Some (tt, w') /\
    write_calls (new_events Sample.idle w') =
      [EvFdWrite 1 [(s_utf8, Z.of_nat (length (Utf8.encode Sample.hello))); (lf, 1)]
         [Utf8.encode Sample.hello; [byte.of_Z 10]]] /\
    delivered w' 1 =
      delivered Sample.idle 1 ++
      accepted (fst (next_write (wplan Sample.idle)))
        (Utf8.encode Sample.hello ++ [byte.of_Z 10]) /\
    (fst (next_write (wplan Sample.idle)) = WFull ->
     delivered w' 1 =
       delivered Sample.idle 1 ++ Utf8.encode Sample.hello ++ [byte.of_Z 10]).
Proof.
  apply (writeStringLn_single_scatter_write (codec := Utf8.codec) 1 Sample.hello
           Sample.idle); calc.
Defined.

Lemma readAll_accumulates_stream_witness :
  exists w' acc,
    IO.readAll 11 0 (Some 7) (Some 4) Sample.piped = Some (Some 7, w') /\
    arrays w' !! 7 = Some (Sample.bytes ++ acc) /\
    pending Sample.piped 0 = acc ++ pending w' 0 /\
    (reads_succeed (rplan Sample.piped) ->
     acc = pending Sample.piped 0 /\ pending w' 0 = []).
Proof.
  apply (readAll_accumulates_stream 0 (Some 7) (Some 4) Sample.piped Sample.bytes
           11%nat); calc.
Defined.

Lemma read_end_of_stream_witness :
  exists w',
    IO.read 0 (Some 7) (Some 4) Sample.drained = Some (None, w') /\
    arrays w' !! 7 = Some Sample.bytes /\ arrays w' = arrays Sample.drained.
Proof.
  apply (read_end_of_stream 0 7 (Some 4) Sample.drained Sample.bytes); calc.
Defined.

Lemma read_single_chunk_witness :
  (0 < handed_over Sample.piped 0%Z (Some 4%Z))%nat /\
  exists w' r dp iov rp,
    IO.read 0 (Some 7) (Some 4) Sample.piped = Some (r, w') /\
    journal w' = journal Sample.piped ++
      [EvAlloc dp 4; EvAlloc iov 8; EvAlloc rp 4;
       EvFdRead 0 [(dp, 4)]; EvFree rp; EvFree dp] /\
    ((0 < handed_over Sample.piped 0%Z (Some 4%Z))%nat ->
     r = Some 7 /\
     arrays w' !! 7 =
       Some (Sample.bytes ++
             take (handed_over Sample.piped 0 (Some 4)) (pending Sample.piped 0)) /\
     length (take (handed_over Sample.piped 0 (Some 4)) (pending Sample.piped 0)) =
       handed_over Sample.piped 0 (Some 4)).
Proof.
  split; [vm_compute; lia|].
  apply (read_single_chunk 0 (Some 7) (Some 4) Sample.piped Sample.bytes); calc.
Defined.

Lemma writeString_readString_round_trip_witness :
  exists w',
    IO.readString (codec := Utf8.codec) 11 0 None Sample.piped
      = Some (Some Sample.hello, w').
Proof.
  apply (writeString_readString_round_trip (codec := Utf8.codec) 1 0 Sample.hello
           None None Sample.idle
           (Sample.run (IO.writeString (codec := Utf8.codec) 1 Sample.hello None)
              Sample.idle)
           Sample.piped 11%nat); calc.
Defined.

Lemma write_empty_sequence_witness :
  exists w' data_buf iov written_ptr,
    IO.write 1 8 Sample.idle = Some (tt, w') /\
    journal w' = journal Sample.idle ++
      [EvAlloc data_buf 0; EvAlloc iov 8; EvAlloc written_ptr 4;
       EvFdWrite 1 [(data_buf, 0)] [[]];
       EvFree written_ptr; EvFree data_buf] /\
    (forall fd', delivered w' fd' = delivered Sample.idle fd').
Proof.
  apply (write_empty_sequence 1 8 Sample.idle); calc.
Defined.

Lemma Console_newline_by_default_witness :
  emits (Console.write (codec := Utf8.codec) Sample.hello None) Sample.idle 1
    [Utf8.encode Sample.hello; [byte.of_Z 10]] /\
  emits (Console.log (codec := Utf8.codec) Sample.hello) Sample.idle 1
    [Utf8.encode Sample.hello; [byte.of_Z 10]] /\
  emits (Console.error (codec := Utf8.codec) Sample.hello None) Sample.idle 2
    [Utf8.encode Sample.hello; [byte.of_Z 10]] /\
  emits (Console.write (codec := Utf8.codec) Sample.hello (Some false)) Sample.idle 1
    [Utf8.encode Sample.hello] /\
  emits (Console.error (codec := Utf8.codec) Sample.hello (Some false)) Sample.idle 2
    [Utf8.encode Sample.hello].
Proof.
  apply (Console_newline_by_default (codec := Utf8.codec) Sample.hello Sample.idle);
    calc.
Defined.

Lemma writeString_newline_is_writeStringLn_witness :
  exists w' s_utf8 iov lf written_ptr,
    IO.writeString (codec := Utf8.codec) 2 Sample.hello (Some true) Sample.idle
      = Some (tt, w') /\
    new_events Sample.idle w' =
      [EvAlloc s_utf8 (Z.of_nat (length (Utf8.encode Sample.hello)) + 1);
       EvAlloc iov 16; EvAlloc lf 1; EvAlloc written_ptr 4;
       EvFdWrite 2 [(s_utf8, Z.of_nat (length (Utf8.encode Sample.hello))); (lf, 1)]
         [Utf8.encode Sample.hello; [byte.of_Z 10]];
       EvFree written_ptr; EvFree s_utf8].
Proof.
  apply (writeString_newline_is_writeStringLn (codec := Utf8.codec) 2 Sample.hello
           Sample.idle); calc.
Defined.

(** ** The further properties at the sample worlds *)

Ltac shape :=
  unfold droplet_ok; splits; vm_compute;
  first [ reflexivity | (intros; discriminate)
        | repeat (constructor; [repeat first [left; reflexivity | right]|]);
          constructor ].

Lemma write_single_attempt_witness :
  exists w' data_buf,
    IO.write 1 7 SampleHost.stingy = Some (tt, w') /\
    write_calls (new_events SampleHost.stingy w') =
      [EvFdWrite 1 [(data_buf, 2)] [Sample.bytes]] /\
    arrays w' = arrays SampleHost.stingy /\
    input w' = input SampleHost.stingy /\
    (forall fd', fd' <> 1 ->
       delivered w' fd' = delivered SampleHost.stingy fd') /\
    (fst (next_write (wplan SampleHost.stingy)) = WFull ->
     delivered w' 1 = delivered SampleHost.stingy 1 ++ Sample.bytes) /\
    (forall k, fst (next_write (wplan SampleHost.stingy)) = WShort k ->
     delivered w' 1 = delivered SampleHost.stingy 1 ++ take k Sample.bytes) /\
    (forall e, fst (next_write (wplan SampleHost.stingy)) = WFail e ->
     delivered w' 1 = delivered SampleHost.stingy 1).
Proof.
  apply (write_single_attempt 1 7 Sample.bytes SampleHost.stingy); calc.
Defined.

Lemma write_readAll_round_trip_witness :
  exists w',
    IO.readAll 3 0 (Some 7) None SampleHost.echoed
      = Some (Some (target SampleHost.echoed (Some 7)), w') /\
    arrays w' !! target SampleHost.echoed (Some 7)
      = Some (Sample.bytes ++ Sample.bytes) /\
    pending w' 0 = [].
Proof.
  apply (write_readAll_round_trip 1 0 7 Sample.bytes Sample.bytes (Some 7) None
           Sample.idle (Sample.run (IO.write 1 7) Sample.idle)
           SampleHost.echoed 3%nat); calc.
Defined.

Lemma Console_log_twice_witness :
  exists w',
    (Console.log (codec := Utf8.codec) Sample.hello ;;
     Console.log (codec := Utf8.codec) Sample.hello) Sample.idle
      = Some (tt, w') /\
    length (write_calls (new_events Sample.idle w')) = 2%nat /\
    delivered w' 1 =
      delivered Sample.idle 1 ++
      accepted (fst (next_write (wplan Sample.idle)))
        (Utf8.encode Sample.hello ++ [byte.of_Z 10]) ++
      accepted (fst (next_write (snd (next_write (wplan Sample.idle)))))
        (Utf8.encode Sample.hello ++ [byte.of_Z 10]) /\
    (wplan Sample.idle = [] ->
     delivered w' 1 =
       delivered Sample.idle 1 ++ Utf8.encode Sample.hello ++ [byte.of_Z 10]
         ++ Utf8.encode Sample.hello ++ [byte.of_Z 10]).
Proof.
  apply (Console_log_twice (codec := Utf8.codec) Sample.hello Sample.hello
           Sample.idle); calc.
Defined.

Lemma read_ignores_status_witness :
  exists w',
    IO.read 0 (Some 7) (Some 4) SampleHost.scribbled = Some (Some 7, w') /\
    arrays w' !! 7 = Some (Sample.bytes ++ take 2 Sample.bytes) /\
    pending w' 0 = pending SampleHost.scribbled 0.
Proof.
  apply (read_ignores_status 0 7 (Some 4) SampleHost.scribbled Sample.bytes
           Sample.bytes 29%positive 2%nat []); calc.
Defined.

Lemma readAll_zero_chunk_witness :
  exists w' dp,
    IO.readAll 11 0 (Some 7) (Some 0) Sample.piped
      = Some (Some (target Sample.piped (Some 7)), w') /\
    arrays w' !! target Sample.piped (Some 7) = Some Sample.bytes /\
    (forall fd', pending w' fd' = pending Sample.piped fd') /\
    read_calls (new_events Sample.piped w') = [EvFdRead 0 [(dp, 0)]].
Proof.
  apply (readAll_zero_chunk 0 (Some 7) Sample.piped Sample.bytes 11%nat); calc.
Defined.

Lemma readAll_first_read_fails_witness :
  exists w' dp,
    IO.readAll 11 0 (Some 7) (Some 4) SampleHost.scribbled
      = Some (Some (target SampleHost.scribbled (Some 7)), w') /\
    arrays w' !! target SampleHost.scribbled (Some 7) = Some Sample.bytes /\
    (forall fd', pending w' fd' = pending SampleHost.scribbled fd') /\
    read_calls (new_events SampleHost.scribbled w') = [EvFdRead 0 [(dp, 4)]].
Proof.
  apply (readAll_first_read_fails 0 (Some 7) (Some 4) SampleHost.scribbled
           Sample.bytes 11%nat); calc.
Defined.

Lemma read_twice_continues_witness :
  exists w',
    (IO.read 0 (Some 7) (Some 4) ;; IO.read 0 (Some 7) (Some 4)) Sample.piped
      = Some (Some 7, w') /\
    arrays w' !! 7 = Some (Sample.bytes ++ take 4 (pending Sample.piped 0)) /\
    pending w' 0 = drop 4 (pending Sample.piped 0).
Proof.
  apply (read_twice_continues 0 7 (Some 4) Sample.piped Sample.bytes); calc.
Defined.

Lemma readAll_touches_nothing_else_witness :
  exists w' r,
    IO.readAll 11 0 (Some 7) (Some 4) Sample.piped = Some (r, w') /\
    output w' = output Sample.piped /\
    (forall fd', fd' <> 0 -> pending w' fd' = pending Sample.piped fd') /\
    (forall a', a' <> target Sample.piped (Some 7) ->
       arrays w' !! a' = arrays Sample.piped !! a').
Proof.
  apply (readAll_touches_nothing_else 0 (Some 7) (Some 4) Sample.piped
           Sample.bytes 11%nat); calc.
Defined.

Lemma readString_decodes_what_it_read_witness :
  exists w' acc dp,
    IO.readString (codec := Utf8.codec) 11 0 (Some 4) Sample.faulty
      = Some (Some (Utf8.decode acc), w') /\
    pending Sample.faulty 0 = acc ++ pending w' 0 /\
    In (EvAlloc dp 4096) (new_events Sample.faulty w') /\
    In (EvFdRead 0 [(dp, 4096)]) (new_events Sample.faulty w') /\
    (reads_succeed (rplan Sample.faulty) ->
     acc = pending Sample.faulty 0 /\ pending w' 0 = []).
Proof.
  apply (readString_decodes_what_it_read (codec := Utf8.codec) 0 (Some 4)
           Sample.faulty 11%nat); calc.
Defined.

Lemma Console_readAll_returns_input_witness :
  exists w',
    Console.readAll (codec := Utf8.codec) 11 Sample.piped
      = Some (Some (Utf8.decode (pending Sample.piped 0)), w') /\
    pending w' 0 = [] /\ output w' = output Sample.piped.
Proof.
  apply (Console_readAll_returns_input (codec := Utf8.codec) Sample.piped
           11%nat); calc.
Defined.

Lemma drawDroplet_prints_witness :
  exists w' es,
    Index.drawDroplet (codec := Utf8.codec) SampleRain.droplet Sample.idle
      = Some (tt, w') /\
    journal w' = journal Sample.idle ++ es /\
    write_requests es =
      map (fun s => (1, [Utf8.encode s]))
        (droplet_text 5 0 3 0 (Index.characterString SampleRain.droplet)) /\
    length (write_requests es) = 8%nat.
Proof.
  destruct (drawDroplet_prints (codec := Utf8.codec) SampleRain.droplet
              ltac:(calc) Sample.idle ltac:(calc) ltac:(calc))
    as (w' & es & Hrun & Hj & Hw & _).
  exists w', es. splits; [exact Hrun | exact Hj | exact Hw |].
  rewrite Hw. reflexivity.
Defined.

Lemma updateDroplet_keeps_shape_witness :
  droplet_ok (fst (Index.updateDroplet SampleRain.droplet SampleRain.rest)) /\
  Index.column (fst (Index.updateDroplet SampleRain.droplet SampleRain.rest))
    = 5 /\
  Index.height (fst (Index.updateDroplet SampleRain.droplet SampleRain.rest))
    = 4 /\
  Index.speed (fst (Index.updateDroplet SampleRain.droplet SampleRain.rest))
    = 1 /\
  Index.frameSkip (fst (Index.updateDroplet SampleRain.droplet SampleRain.rest))
    = 2.
Proof.
  apply (updateDroplet_keeps_shape SampleRain.droplet SampleRain.rest). shape.
Defined.


Lemma updateDroplet_moves_witness :
  exists fresh,
    Index.updateDroplet SampleRain.later SampleRain.rest
      = (Index.mkDroplet 5 1
           (drop 1 (Index.characterString SampleRain.droplet) ++ fresh)
           2 0 1 4,
         advance SampleRain.rest 1) /\
    length fresh = 1%nat /\
    Forall (fun c => In c Index.CHARACTERS) fresh.
Proof.
  apply (updateDroplet_moves SampleRain.later SampleRain.rest);
    [shape | calc].
Defined.

Lemma updates_fall_witness :
  droplet_ok (fst (updates 5 SampleRain.droplet SampleRain.rest)) /\
  Index.column (fst (updates 5 SampleRain.droplet SampleRain.rest)) = 5 /\
  Index.row (fst (updates 5 SampleRain.droplet SampleRain.rest)) = 2 /\
  Index.currentFrame (fst (updates 5 SampleRain.droplet SampleRain.rest)) = 1 /\
  drawn (snd (updates 5 SampleRain.droplet SampleRain.rest)) = 9%nat.
Proof.
  apply (updates_fall 5 SampleRain.droplet SampleRain.rest). shape.
Defined.
